(** * Customer export service: a shallow embedding and its verification

    The development follows the TypeScript sources:
    - [database.ts]       the SQLite tables [customers] and [export_jobs];
    - [export-service.ts] the paginated fetch loop and the CSV writer;
    - [server.ts]         the HTTP routes that start and resume an export.

    SQL tables are lists of rows kept in rowid order, the in-memory registry
    of running exports and the file system are finite maps, the clock and the
    remote Shopify API are explicit arguments. *)

From Stdlib Require Import ZArith String Ascii List Lia Sorted Permutation.
From stdpp Require Import base option list sorting gmap strings pretty.

Set Warnings "-register-all,-abstract-large-number".

Local Open Scope string_scope.
Local Open Scope list_scope.
Local Open Scope Z_scope.

(** ** JavaScript values *)

(** Truthiness of a string: only the empty string is falsy. *)
Definition truthy (s : string) : bool := negb (String.eqb s "").

(** [v || d] for a possibly null string [v]. *)
Definition or_else (v : option string) (d : string) : string :=
  match v with
  | Some s => if truthy s then s else d
  | None => d
  end.

(** [!v] for a possibly null or undefined string. *)
Definition falsy_opt (v : option string) : bool :=
  match v with
  | Some s => negb (truthy s)
  | None => true
  end.

Definition dquote : ascii := "034"%char.
Definition comma : ascii := ","%char.
Definition LF : ascii := "010"%char.
Definition CR : ascii := "013"%char.

(** [s.includes(c)] for a one-character needle. *)
Fixpoint includes (c : ascii) (s : string) : bool :=
  match s with
  | EmptyString => false
  | String a s' => Ascii.eqb a c || includes c s'
  end.

(** [s.replace(/c/g, r)] for a one-character pattern class [p]. *)
Fixpoint replace_all (p : ascii -> bool) (r : string) (s : string) : string :=
  match s with
  | EmptyString => EmptyString
  | String a s' =>
      if p a then r +:+ replace_all p r s' else String a (replace_all p r s')
  end.

(** [s.split(c)[0]]: the text before the first [c], all of [s] without one. *)
Fixpoint split_head (c : ascii) (s : string) : string :=
  match s with
  | EmptyString => EmptyString
  | String a s' => if Ascii.eqb a c then EmptyString else String a (split_head c s')
  end.

(** ** Dates

    A [Date] is given by what the program observes of it: [Date.now()] and
    the calendar fields printed by [toISOString] (the month counts from 1). *)

Record Date := {
  epochMs : Z;
  year : nat;
  month : nat;
  day : nat;
  hour : nat;
  minute : nat;
  second : nat;
  millisecond : nat
}.

Definition digit (d : nat) : ascii := ascii_of_nat (48 + d mod 10).

(** The last [k] decimal digits of [n], zero padded. *)
Fixpoint pad (k n : nat) : string :=
  match k with
  | O => EmptyString
  | S k' => pad k' (n / 10) +:+ String (digit n) EmptyString
  end.

(** Years after 9999 are printed in the expanded six-digit form. *)
Definition isoYear (y : nat) : string :=
  if (y <=? 9999)%nat then pad 4 y else "+" +:+ pad 6 y.

Definition isoDate (d : Date) : string :=
  isoYear (year d) +:+ "-" +:+ pad 2 (month d) +:+ "-" +:+ pad 2 (day d).

Definition isoTime (d : Date) : string :=
  pad 2 (hour d) +:+ ":" +:+ pad 2 (minute d) +:+ ":" +:+ pad 2 (second d)
  +:+ "." +:+ pad 3 (millisecond d) +:+ "Z".

Definition toISOString (d : Date) : string :=
  isoDate d +:+ "T" +:+ isoTime d.

(** A clock is the sequence of dates that successive readings return. *)
Definition Clock : Type := nat -> Date.

(** ** JSON documents and [JSON.stringify] *)

Inductive json : Type :=
| JNull
| JBool (b : bool)
| JNum (n : Z)
    (** an integer below 10^21 in absolute value, as the GraphQL [Int] fields
        of the documents are; [JSON.stringify] prints these in full *)
| JStr (s : string)
| JArr (items : list json)
| JObj (members : list (string * json)).

Definition hex_digit (n : nat) : ascii :=
  if (n <? 10)%nat then ascii_of_nat (48 + n) else ascii_of_nat (87 + n).

Definition backslash : ascii := "092"%char.

Definition json_escape_char (c : ascii) : string :=
  let n := nat_of_ascii c in
  if Ascii.eqb c dquote then String backslash (String dquote EmptyString)
  else if Ascii.eqb c backslash then String backslash (String backslash EmptyString)
  else if (n =? 8)%nat then String backslash "b"
  else if (n =? 9)%nat then String backslash "t"
  else if (n =? 10)%nat then String backslash "n"
  else if (n =? 12)%nat then String backslash "f"
  else if (n =? 13)%nat then String backslash "r"
  else if (n <? 32)%nat then
    String backslash ("u00" +:+ String (hex_digit (n / 16)) (String (hex_digit (n mod 16)) EmptyString))
  else String c EmptyString.

Fixpoint json_escape (s : string) : string :=
  match s with
  | EmptyString => EmptyString
  | String c s' => json_escape_char c +:+ json_escape s'
  end.

Definition json_quote (s : string) : string :=
  String dquote (json_escape s) +:+ String dquote EmptyString.

Fixpoint JSON_stringify (v : json) : string :=
  match v with
  | JNull => "null"
  | JBool true => "true"
  | JBool false => "false"
  | JNum n => pretty n
  | JStr s => json_quote s
  | JArr items =>
      "[" +:+ String.concat "," (List.map JSON_stringify items) +:+ "]"
  | JObj members =>
      "{" +:+ String.concat ","
                (List.map (fun kv => json_quote (fst kv) +:+ ":" +:+ JSON_stringify (snd kv))
                          members)
          +:+ "}"
  end.

(** ** [types.ts] *)

Record CustomerAddress := {
  address1 : option string;
  address2 : option string;
  city : option string;
  country : option string;
  countryCodeV2 : option string;
  province : option string;
  provinceCode : option string;
  zip : option string;
  phone : option string;
  addr_firstName : option string;
  addr_lastName : option string;
  company : option string
}.

Record Money := { amount : string; currencyCode : string }.

Record LastOrder := {
  lo_id : string;
  lo_name : string;
  lo_createdAt : string
}.

Record Statistics := {
  predictedSpendTier : option string;
  rfmGroup : option string
}.

(** The three list-valued fields are kept as the JSON documents retrieved
    upstream; the CSV writer only serialises them. *)
Record CustomerData := {
  c_id : string;
  c_firstName : option string;
  c_lastName : option string;
  c_displayName : string;
  c_defaultEmailAddress : option string;
  c_defaultPhoneNumber : option string;
  c_verifiedEmail : bool;
  c_state : string;
  c_locale : option string;
  c_note : option string;
  c_tags : list string;
  c_createdAt : string;
  c_updatedAt : string;
  c_amountSpent : option Money;
  c_numberOfOrders : string;
  c_lifetimeDuration : option string;
  c_addresses : option json;
  c_defaultAddress : option CustomerAddress;
  c_lastOrder : option LastOrder;
  c_productSubscriberStatus : option string;
  c_mergeable : option bool;
  c_originalCreatedDate : option string;
  c_events_nodes : option json;
  c_orders_nodes : option json;
  c_statistics : option Statistics
}.

Inductive ExportStatus : Type := pending | in_progress | completed | failed.

Record ExportJob := {
  j_id : string;
  j_storeName : string;
  j_status : ExportStatus;
  j_totalCustomers : Z;
  j_processedCustomers : Z;
  j_startedAt : string;
  j_completedAt : option string;
  j_error : option string;
  j_csvFilePath : option string;
  j_lastCursor : option string
}.

Global Instance ExportStatus_eq_dec : EqDecision ExportStatus.
Proof. solve_decision. Defined.

(** ** [database.ts] *)

(** A row of the [customers] table.  The [data] column holds
    [JSON.stringify(customer)] and is read back with [JSON.parse]; the row
    keeps the document itself. *)
Record CustomerRow := {
  row_id : string;
  row_store_name : string;
  row_data : CustomerData;
  row_created_at : string;
  row_updated_at : string
}.

(** Rows are listed in rowid order.  A row of [export_jobs] has the columns
    of [ExportJob], which [getExportJob] copies field by field. *)
Record Database := {
  customers : list CustomerRow;
  export_jobs : list ExportJob
}.

Definition with_customers (db : Database) (t : list CustomerRow) : Database :=
  {| customers := t; export_jobs := export_jobs db |}.

Definition with_export_jobs (db : Database) (js : list ExportJob) : Database :=
  {| customers := customers db; export_jobs := js |}.

(** [INSERT OR REPLACE] on a table whose PRIMARY KEY is the column [id]: a
    stored row with the same [id] is deleted, whatever its other columns
    hold, and the new row receives the next rowid. *)
Definition insert_or_replace (r : CustomerRow) (t : list CustomerRow) : list CustomerRow :=
  List.filter (fun x => negb (String.eqb (row_id x) (row_id r))) t ++ [r].

Definition customer_row (storeName now : string) (c : CustomerData) : CustomerRow :=
  {| row_id := c_id c;
     row_store_name := storeName;
     row_data := c;
     row_created_at := if truthy (c_createdAt c) then c_createdAt c else now;
     row_updated_at := now |}.

(** [insertMany]: one transaction, one reading of the clock for the batch. *)
Definition insertMany (storeName now : string) (customersData : list CustomerData)
    (t : list CustomerRow) : list CustomerRow :=
  foldl (fun acc c => insert_or_replace (customer_row storeName now c) acc) t customersData.

Definition saveCustomers (db : Database) (storeName : string)
    (customersData : list CustomerData) (now : Date) : Database :=
  with_customers db (insertMany storeName (toISOString now) customersData (customers db)).

(** [ORDER BY key DESC] over TEXT columns (bytewise comparison).  SQL leaves
    the order of rows with equal keys open; here they keep their rowid
    order. *)
Section OrderBy.
Context {A : Type} (key : A -> string).

Fixpoint insert_desc (x : A) (l : list A) : list A :=
  match l with
  | [] => [x]
  | y :: l' =>
      if String.leb (key y) (key x) then x :: y :: l' else y :: insert_desc x l'
  end.

Definition order_by_desc (l : list A) : list A := foldr insert_desc [] l.
End OrderBy.

(** The rows that [SELECT ... WHERE store_name = ? ORDER BY updated_at DESC]
    yields. *)
Definition select_by_store (t : list CustomerRow) (storeName : string) : list CustomerRow :=
  order_by_desc row_updated_at (filter (fun r => row_store_name r = storeName) t).

Definition getCustomersByStore (db : Database) (storeName : string) : list CustomerData :=
  row_data <$> (select_by_store (customers db) storeName).

Definition getCustomerCount (db : Database) (storeName : string) : Z :=
  Z.of_nat (length (filter (fun r => row_store_name r = storeName) (customers db))).

Definition deleteCustomersByStore (db : Database) (storeName : string) : Database * Z :=
  (with_customers db (filter (fun r => row_store_name r <> storeName) (customers db)),
   getCustomerCount db storeName).

(** Outcome of a call that may throw. *)
Inductive result (A : Type) : Type :=
| Ok (a : A)
| Throw (msg : string).
Arguments Ok {A} a.
Arguments Throw {A} msg.

Definition getExportJob (db : Database) (jobId : string) : option ExportJob :=
  List.find (fun j => String.eqb (j_id j) jobId) (export_jobs db).

(** [createExportJob]: [idTime] is the reading behind [Date.now()], [startTime]
    the one behind [startedAt].  The INSERT fails on a primary key already
    present. *)
Definition createExportJob (db : Database) (storeName : string) (idTime startTime : Date)
    : result (ExportJob * Database) :=
  let job := {| j_id := "export_" +:+ storeName +:+ "_" +:+ pretty (epochMs idTime);
                j_storeName := storeName;
                j_status := pending;
                j_totalCustomers := 0;
                j_processedCustomers := 0;
                j_startedAt := toISOString startTime;
                j_completedAt := None;
                j_error := None;
                j_csvFilePath := None;
                j_lastCursor := None |} in
  match getExportJob db (j_id job) with
  | Some _ => Throw "UNIQUE constraint failed: export_jobs.id"
  | None => Ok (job, with_export_jobs db (export_jobs db ++ [job]))
  end.

(** [Partial<ExportJob>] as passed to [updateExportJob]: [None] is a field
    left undefined. *)
Record JobUpdates := {
  u_status : option ExportStatus;
  u_totalCustomers : option Z;
  u_processedCustomers : option Z;
  u_completedAt : option string;
  u_error : option string;
  u_csvFilePath : option string;
  u_lastCursor : option string
}.

Definition no_updates : JobUpdates :=
  {| u_status := None; u_totalCustomers := None; u_processedCustomers := None;
     u_completedAt := None; u_error := None; u_csvFilePath := None;
     u_lastCursor := None |}.

(** A column guarded by [if (updates.f)] is written for a truthy value. *)
Definition set_if_truthy (u : option string) (old : option string) : option string :=
  match u with
  | Some s => if truthy s then Some s else old
  | None => old
  end.

(** A column guarded by [!== undefined] is written for any defined value. *)
Definition set_if_defined {A : Type} (u : option A) (old : A) : A :=
  match u with
  | Some v => v
  | None => old
  end.

Definition apply_updates (u : JobUpdates) (j : ExportJob) : ExportJob :=
  {| j_id := j_id j;
     j_storeName := j_storeName j;
     j_status := set_if_defined (u_status u) (j_status j);
     j_totalCustomers := set_if_defined (u_totalCustomers u) (j_totalCustomers j);
     j_processedCustomers := set_if_defined (u_processedCustomers u) (j_processedCustomers j);
     j_startedAt := j_startedAt j;
     j_completedAt := set_if_truthy (u_completedAt u) (j_completedAt j);
     j_error := set_if_truthy (u_error u) (j_error j);
     j_csvFilePath := set_if_truthy (u_csvFilePath u) (j_csvFilePath j);
     j_lastCursor :=
       match u_lastCursor u with
       | Some c => Some c
       | None => j_lastCursor j
       end |}.

Definition updateExportJob (db : Database) (jobId : string) (updates : JobUpdates) : Database :=
  with_export_jobs db
    ((fun j => if String.eqb (j_id j) jobId then apply_updates updates j else j)
       <$> export_jobs db).

(** [LIMIT n]: a negative bound means no bound. *)
Definition sql_limit {A : Type} (n : Z) (l : list A) : list A :=
  if n <? 0 then l else take (Z.to_nat n) l.

Definition getExportJobsByStore (db : Database) (storeName : string) (limit : Z)
    : list ExportJob :=
  sql_limit limit
    (order_by_desc j_startedAt (filter (fun j => j_storeName j = storeName) (export_jobs db))).

(** Without a store name the query is answered from the index on
    [started_at] read backwards, so of the jobs that started at the same time
    the one inserted last comes first. *)
Definition getLatestExportJob (db : Database) (storeName : option string) : option ExportJob :=
  if falsy_opt storeName then head (order_by_desc j_startedAt (reverse (export_jobs db)))
  else head (getExportJobsByStore db (or_else storeName "") 1).

(** ** [shopify-client.ts] *)

(** [process.env]. *)
Definition Env : Type := string -> option string.

(** What a request to the Admin API can come back with. *)
Inductive ApiResponse : Type :=
| Rejected (msg : string)
    (** the request, or the reading of its result, throws [msg] *)
| GraphQLErrors (errors : string)
    (** [response.errors] is non-empty; [errors] is its JSON text *)
| InvalidResponse
    (** no [response.data.customers] *)
| CustomersPage (nodes : list CustomerData) (hasNextPage : bool) (endCursor : option string).

(** A client answers [request(query, {first, after})]. *)
Definition Api : Type := Z -> option string -> ApiResponse.

(** The remote stores: the client that a domain and an access token open. *)
Definition Shopify : Type := string -> string -> Api.

Definition storeConfigTable : list (string * (string * string)) :=
  [ ("evisu-hk-staging", ("EVISU_HK_STAGING_SHOP_DOMAIN", "EVISU_HK_STAGING_ACCESS_TOKEN"));
    ("evisu-hk", ("EVISU_HK_SHOP_DOMAIN", "EVISU_HK_ACCESS_TOKEN"));
    ("evisu-ap", ("EVISU_AP_SHOP_DOMAIN", "EVISU_AP_ACCESS_TOKEN"));
    ("evisu-eu", ("EVISU_EU_SHOP_DOMAIN", "EVISU_EU_ACCESS_TOKEN"));
    ("evisu-jp", ("EVISU_JP_SHOP_DOMAIN", "EVISU_JP_ACCESS_TOKEN"));
    ("evisu-sa", ("EVISU_SA_SHOP_DOMAIN", "EVISU_SA_ACCESS_TOKEN"));
    ("evisu-tw", ("EVISU_TW_SHOP_DOMAIN", "EVISU_TW_ACCESS_TOKEN"));
    ("evisu-us", ("EVISU_US_SHOP_DOMAIN", "EVISU_US_ACCESS_TOKEN")) ].

(** Names that every object literal inherits from [Object.prototype]. *)
Definition inheritedNames : list string :=
  [ "constructor"; "__defineGetter__"; "__defineSetter__"; "hasOwnProperty";
    "__lookupGetter__"; "__lookupSetter__"; "isPrototypeOf"; "propertyIsEnumerable";
    "toString"; "valueOf"; "__proto__"; "toLocaleString" ].

Fixpoint assoc {A : Type} (k : string) (l : list (string * A)) : option A :=
  match l with
  | [] => None
  | (k', v) :: l' => if String.eqb k' k then Some v else assoc k l'
  end.

Definition mem (k : string) (l : list string) : bool :=
  existsb (String.eqb k) l.

(** [storeName in storeConfigs]: own keys and inherited names alike. *)
Definition in_storeConfigs (storeName : string) : bool :=
  match assoc storeName storeConfigTable with
  | Some _ => true
  | None => mem storeName inheritedNames
  end.

(** What [clientInstances[name]] holds for an inherited name: a truthy value
    without a [request] method. *)
Definition inherited_client : Api :=
  fun _ _ => Rejected "shopify.request is not a function".

Definition createShopifyClient (env : Env) (remote : Shopify) (storeName : string)
    : result Api :=
  if mem storeName inheritedNames then Ok inherited_client
  else
    match assoc storeName storeConfigTable with
    | Some (domainVar, tokenVar) =>
        if falsy_opt (env domainVar) || falsy_opt (env tokenVar) then
          Throw ("Store configuration not found or incomplete for " +:+ storeName
                 +:+ ". Check environment variables.")
        else Ok (remote (or_else (env domainVar) "") (or_else (env tokenVar) ""))
    | None =>
        Throw ("Store configuration not found or incomplete for " +:+ storeName
               +:+ ". Check environment variables.")
    end.

(** ** [export-service.ts] *)

Definition CUSTOMERS_PER_REQUEST : Z := 250.
Definition DELAY_BETWEEN_REQUESTS_MS : Z := 500.

(** What the service runs in. *)
Record World := {
  env : Env;
  remote : Shopify;
  clock : Clock;
  outputDir : string
}.

(** What the service changes: the database, the files, the number of clock
    readings taken so far, and the cursors sent upstream (latest first). *)
Record State := {
  db : Database;
  files : gmap string string;
  ticks : nat;
  requests : list (option string)
}.

Definition with_db (st : State) (d : Database) : State :=
  {| db := d; files := files st; ticks := ticks st; requests := requests st |}.

Definition tick (st : State) : State :=
  {| db := db st; files := files st; ticks := S (ticks st); requests := requests st |}.

Definition sent (cursor : option string) (st : State) : State :=
  {| db := db st; files := files st; ticks := ticks st; requests := cursor :: requests st |}.

Definition with_file (st : State) (path content : string) : State :=
  {| db := db st; files := <[path := content]> (files st); ticks := ticks st;
     requests := requests st |}.

(** [new Date()]. *)
Definition now (w : World) (st : State) : Date := clock w (ticks st).

Inductive LoopOutcome : Type :=
| LoopDone (totalCustomers : Z) (st : State)
| LoopThrew (msg : string) (st : State)
| LoopOutOfFuel (st : State).

(** The body of [while (hasNextPage)]; [fuel] bounds the number of requests. *)
Fixpoint fetch_loop (w : World) (shopify : Api) (storeName exportJobId : string)
    (fuel : nat) (cursor : option string) (totalCustomers : Z) (st : State)
    : LoopOutcome :=
  match fuel with
  | O => LoopOutOfFuel st
  | S fuel' =>
      let st := sent cursor st in
      match shopify CUSTOMERS_PER_REQUEST cursor with
      | Rejected msg => LoopThrew msg st
      | GraphQLErrors errors => LoopThrew ("GraphQL Error: " +:+ errors) st
      | InvalidResponse => LoopThrew "Invalid response from Shopify API" st
      | CustomersPage nodes hasNextPage endCursor =>
          let '(totalCustomers, st) :=
            match nodes with
            | [] => (totalCustomers, st)
            | _ :: _ =>
                let saved := saveCustomers (db st) storeName nodes (now w st) in
                let total := totalCustomers + Z.of_nat (length nodes) in
                (total,
                 with_db (tick st)
                   (updateExportJob saved exportJobId
                      {| u_status := None; u_totalCustomers := None;
                         u_processedCustomers := Some total;
                         u_completedAt := None; u_error := None;
                         u_csvFilePath := None; u_lastCursor := None |}))
            end in
          if hasNextPage
          then fetch_loop w shopify storeName exportJobId fuel' endCursor totalCustomers st
          else LoopDone totalCustomers st
      end
  end.

Inductive Outcome : Type :=
| Returned (totalCustomers : Z) (jobId : string) (st : State)
| Threw (msg : string) (st : State)
| OutOfFuel (st : State).

Definition outcome_state (o : Outcome) : State :=
  match o with
  | Returned _ _ st | Threw _ st | OutOfFuel st => st
  end.

(** [createExportJob(storeName).id], with the two clock readings it takes. *)
Definition newExportJob (w : World) (storeName : string) (st : State)
    : result (string * State) :=
  match createExportJob (db st) storeName (now w st) (now w (tick st)) with
  | Ok (j, d) => Ok (j_id j, with_db (tick (tick st)) d)
  | Throw msg => Throw msg
  end.

(** [fetchAndSaveCustomers(storeName, jobId?)].  The function has these two
    parameters; the cursor starts at [null] and the running total at [0]. *)
Definition fetchAndSaveCustomers (w : World) (fuel : nat) (storeName : string)
    (jobId : option string) (st : State) : Outcome :=
  match createShopifyClient (env w) (remote w) storeName with
  | Throw msg => Threw msg st
  | Ok shopify =>
      let job := if falsy_opt jobId then None else getExportJob (db st) (or_else jobId "") in
      let created :=
        match job with
        | Some j => if truthy (j_id j) then Ok (j_id j, st) else newExportJob w storeName st
        | None => newExportJob w storeName st
        end in
      match created with
      | Throw msg => Threw msg (tick (tick st))
      | Ok (exportJobId, st) =>
          let st :=
            with_db st
              (updateExportJob (db st) exportJobId
                 {| u_status := Some in_progress; u_totalCustomers := None;
                    u_processedCustomers := None; u_completedAt := None;
                    u_error := None; u_csvFilePath := None; u_lastCursor := None |}) in
          match fetch_loop w shopify storeName exportJobId fuel None 0 st with
          | LoopDone totalCustomers st =>
              Returned totalCustomers exportJobId
                (with_db (tick st)
                   (updateExportJob (db st) exportJobId
                      {| u_status := Some completed;
                         u_totalCustomers := Some totalCustomers;
                         u_processedCustomers := None;
                         u_completedAt := Some (toISOString (now w st));
                         u_error := None; u_csvFilePath := None;
                         u_lastCursor := None |}))
          | LoopThrew msg st =>
              Threw msg
                (with_db (tick st)
                   (updateExportJob (db st) exportJobId
                      {| u_status := Some failed; u_totalCustomers := None;
                         u_processedCustomers := None;
                         u_completedAt := Some (toISOString (now w st));
                         u_error := Some msg; u_csvFilePath := None;
                         u_lastCursor := None |}))
          | LoopOutOfFuel st => OutOfFuel st
          end
      end
  end.

(** *** The CSV writer *)

Definition headers : list string :=
  [ "id"; "firstName"; "lastName"; "displayName"; "email"; "phone"; "verifiedEmail";
    "state"; "locale"; "note"; "tags"; "createdAt"; "updatedAt"; "amountSpent";
    "amountSpentCurrency"; "numberOfOrders"; "lifetimeDuration";
    "defaultAddress_address1"; "defaultAddress_address2"; "defaultAddress_city";
    "defaultAddress_country"; "defaultAddress_countryCodeV2"; "defaultAddress_province";
    "defaultAddress_provinceCode"; "defaultAddress_zip"; "defaultAddress_phone";
    "defaultAddress_firstName"; "defaultAddress_lastName"; "defaultAddress_company";
    "lastOrder_id"; "lastOrder_name"; "lastOrder_createdAt"; "productSubscriberStatus";
    "isMergeable"; "originalCreatedDate (metafield: magento.created_at)"; "allAddresses";
    "lastFiveEvents"; "lastFiveOrders"; "statistics_predictedSpendTier";
    "statistics_rfmGroup" ].

Definition is_dquote (c : ascii) : bool := Ascii.eqb c dquote.

Definition two_dquotes : string := String dquote (String dquote EmptyString).

(** [value.replace] of every double quote by two of them. *)
Definition double_quotes (value : string) : string :=
  replace_all is_dquote two_dquotes value.

Definition bool_text (b : bool) : string := if b then "true" else "false".

(** [customer.defaultAddress?.f || ''] *)
Definition address_field (f : CustomerAddress -> option string) (c : CustomerData) : string :=
  or_else (match c_defaultAddress c with Some a => f a | None => None end) "".

(** [JSON.stringify(v || [])] *)
Definition blob (v : option json) : string :=
  JSON_stringify (match v with Some d => d | None => JArr [] end).

(** The object literal of [customerToCSVRow], as its properties in insertion
    order, which is the order [Object.values] lists them in. *)
Definition customerToCSVRow (customer : CustomerData) : list (string * string) :=
  [ ("id", or_else (Some (c_id customer)) "");
    ("firstName", or_else (c_firstName customer) "");
    ("lastName", or_else (c_lastName customer) "");
    ("displayName", or_else (Some (c_displayName customer)) "");
    ("email", or_else (c_defaultEmailAddress customer) "");
    ("phone", or_else (c_defaultPhoneNumber customer) "");
    ("verifiedEmail", bool_text (c_verifiedEmail customer));
    ("state", or_else (Some (c_state customer)) "");
    ("locale", or_else (c_locale customer) "");
    ("note", double_quotes (or_else (c_note customer) ""));
    ("tags", String.concat ", " (c_tags customer));
    ("createdAt", or_else (Some (c_createdAt customer)) "");
    ("updatedAt", or_else (Some (c_updatedAt customer)) "");
    ("amountSpent", or_else (amount <$> c_amountSpent customer) "0");
    ("amountSpentCurrency", or_else (currencyCode <$> c_amountSpent customer) "");
    ("numberOfOrders", or_else (Some (c_numberOfOrders customer)) "0");
    ("lifetimeDuration", or_else (c_lifetimeDuration customer) "");
    ("defaultAddress_address1", address_field address1 customer);
    ("defaultAddress_address2", address_field address2 customer);
    ("defaultAddress_city", address_field city customer);
    ("defaultAddress_country", address_field country customer);
    ("defaultAddress_countryCodeV2", address_field countryCodeV2 customer);
    ("defaultAddress_province", address_field province customer);
    ("defaultAddress_provinceCode", address_field provinceCode customer);
    ("defaultAddress_zip", address_field zip customer);
    ("defaultAddress_phone", address_field phone customer);
    ("defaultAddress_firstName", address_field addr_firstName customer);
    ("defaultAddress_lastName", address_field addr_lastName customer);
    ("defaultAddress_company", address_field company customer);
    ("lastOrder_id", or_else (lo_id <$> c_lastOrder customer) "");
    ("lastOrder_name", or_else (lo_name <$> c_lastOrder customer) "");
    ("lastOrder_createdAt", or_else (lo_createdAt <$> c_lastOrder customer) "");
    ("productSubscriberStatus", or_else (c_productSubscriberStatus customer) "");
    ("isMergeable", bool_text (match c_mergeable customer with Some b => b | None => false end));
    ("originalCreatedDate", or_else (c_originalCreatedDate customer) "");
    ("allAddresses", blob (c_addresses customer));
    ("allEvents", blob (c_events_nodes customer));
    ("allOrders", blob (c_orders_nodes customer));
    ("statistics_predictedSpendTier",
      or_else (match c_statistics customer with Some x => predictedSpendTier x | None => None end) "");
    ("statistics_rfmGroup",
      or_else (match c_statistics customer with Some x => rfmGroup x | None => None end) "") ].

Definition escapeCSVField (value : string) : string :=
  if includes comma value || includes dquote value || includes LF value || includes CR value
  then String dquote (double_quotes value) +:+ String dquote EmptyString
  else value.

Definition csvRowToLine (row : list (string * string)) : string :=
  String.concat "," ((fun kv => escapeCSVField (snd kv)) <$> row).

Definition newline : string := String LF EmptyString.

(** Everything written to the stream between its opening and [end()]. *)
Definition csv_text (customersData : list CustomerData) : string :=
  String.concat "," headers +:+ newline
  +:+ String.concat ""
        ((fun c => csvRowToLine (customerToCSVRow c) +:+ newline) <$> customersData).

Definition is_colon_or_dot (c : ascii) : bool :=
  Ascii.eqb c ":"%char || Ascii.eqb c "."%char.

(** [new Date().toISOString().replace(/[:.]/g, '-').split('T')[0]] *)
Definition timestamp (d : Date) : string :=
  split_head "T"%char (replace_all is_colon_or_dot "-" (toISOString d)).

(** [path.join(outputDir, ...)] for a file name without separators. *)
Definition outputFile (w : World) (storeName : string) (d : Date) : string :=
  outputDir w +:+ "/" +:+ "customers-" +:+ storeName +:+ "-" +:+ timestamp d +:+ ".csv".

(** [exportCustomersToCSV(storeName, jobId?)].  The stream is opened with
    the flag ['w'], so what the file held before is dropped. *)
Definition exportCustomersToCSV (w : World) (storeName : string) (jobId : option string)
    (st : State) : result (string * State) :=
  let customersData := getCustomersByStore (db st) storeName in
  match customersData with
  | [] => Throw ("No customers found in database for store: " +:+ storeName)
  | _ :: _ =>
      let file := outputFile w storeName (now w st) in
      let st := with_file (tick st) file (csv_text customersData) in
      let st :=
        if falsy_opt jobId then st
        else with_db st
               (updateExportJob (db st) (or_else jobId "")
                  {| u_status := None; u_totalCustomers := None;
                     u_processedCustomers := None; u_completedAt := None;
                     u_error := None; u_csvFilePath := Some file;
                     u_lastCursor := None |}) in
      Ok (file, st)
  end.

(** ** [server.ts] *)

(** The server process: the durable state and the in-memory map
    [activeExports]. *)
Record Server := {
  state : State;
  activeExports : gmap string bool
}.

(** [activeExports.get(storeName)], as a condition. *)
Definition is_exporting (srv : Server) (storeName : string) : bool :=
  match activeExports srv !! storeName with
  | Some b => b
  | None => false
  end.

Definition mark_exporting (srv : Server) (storeName : string) : Server :=
  {| state := state srv; activeExports := <[storeName := true]> (activeExports srv) |}.

Definition unmark_exporting (srv : Server) (storeName : string) : Server :=
  {| state := state srv; activeExports := delete storeName (activeExports srv) |}.

(** [req.body] of the two POST routes. *)
Record Body := {
  exportCsv : bool;
  jobId : option string
}.

Inductive Response : Type :=
| InvalidStoreName
| AlreadyInProgress (storeName : string)
| NoFailedJob (storeName : string)
| CanOnlyResume (jobStatus : ExportStatus) (job : string)
| NoSavedCursor (job : string)
| ExportStarted (storeName job : string) (downloadUrl : option string)
| ExportResumed (storeName job : string) (resumedFrom : Z) (downloadUrl : option string).

(** The HTTP status each response is sent with. *)
Definition http_status (r : Response) : Z :=
  match r with
  | InvalidStoreName => 400
  | AlreadyInProgress _ => 409
  | NoFailedJob _ => 404
  | CanOnlyResume _ _ => 400
  | NoSavedCursor _ => 400
  | ExportStarted _ _ _ => 200
  | ExportResumed _ _ _ _ => 200
  end.

(** The detached [async] block a route leaves running.  [t_args] are the
    arguments after [storeName] that the block passes to
    [fetchAndSaveCustomers]: none on a start, the job id and its stored cursor
    on a resume. *)
Record Task := {
  t_storeName : string;
  t_args : option (string * option string);
  t_exportCsv : bool
}.

(** [POST /api/export/:storeName] up to the response. *)
Definition post_export (srv : Server) (storeName : string) (body : Body)
    : Response * Server * option Task :=
  if negb (in_storeConfigs storeName) then (InvalidStoreName, srv, None)
  else if is_exporting srv storeName then (AlreadyInProgress storeName, srv, None)
  else
    let latestJob := getLatestExportJob (db (state srv)) (Some storeName) in
    (ExportStarted storeName
       (or_else (j_id <$> latestJob) "pending")
       (if exportCsv body then Some ("/api/download-csv/" +:+ storeName +:+ "/latest")
        else None),
     mark_exporting srv storeName,
     Some {| t_storeName := storeName; t_args := None; t_exportCsv := exportCsv body |}).

Definition resumable (job : ExportJob) : bool :=
  bool_decide (j_status job = failed) || bool_decide (j_status job = in_progress).

(** The job a resume request designates: the one named by [jobId] when it
    exists, else the latest resumable one among the last ten of the store. *)
Definition jobToResume (d : Database) (storeName : string) (body : Body) : option ExportJob :=
  match (if falsy_opt (jobId body) then None else getExportJob d (or_else (jobId body) "")) with
  | Some job => Some job
  | None => List.find resumable (getExportJobsByStore d storeName 10)
  end.

(** [POST /api/export/:storeName/resume] up to the response. *)
Definition post_resume (srv : Server) (storeName : string) (body : Body)
    : Response * Server * option Task :=
  if negb (in_storeConfigs storeName) then (InvalidStoreName, srv, None)
  else if is_exporting srv storeName then (AlreadyInProgress storeName, srv, None)
  else
    match jobToResume (db (state srv)) storeName body with
    | None => (NoFailedJob storeName, srv, None)
    | Some job =>
        if negb (resumable job) then (CanOnlyResume (j_status job) (j_id job), srv, None)
        else if falsy_opt (j_lastCursor job) then (NoSavedCursor (j_id job), srv, None)
        else
          (ExportResumed storeName (j_id job) (j_processedCustomers job)
             (if exportCsv body then Some ("/api/download-csv/job/" +:+ j_id job) else None),
           mark_exporting srv storeName,
           Some {| t_storeName := storeName;
                   t_args := Some (j_id job, j_lastCursor job);
                   t_exportCsv := exportCsv body |})
    end.

(** A call [fetchAndSaveCustomers(storeName, id, cursor)]: the function
    declares two parameters, so the third argument is evaluated and never
    read. *)
Definition call_fetchAndSaveCustomers (w : World) (fuel : nat) (storeName : string)
    (args : option (string * option string)) (st : State) : Outcome :=
  match args with
  | None => fetchAndSaveCustomers w fuel storeName None st
  | Some (job, _) => fetchAndSaveCustomers w fuel storeName (Some job) st
  end.

(** The detached block, run to its end: fetch, write the CSV when asked,
    swallow any error, and in every case drop the store from
    [activeExports].  Without fuel left the block is still running and the
    store stays marked. *)
Definition run_task (w : World) (fuel : nat) (t : Task) (srv : Server) : Server :=
  match call_fetchAndSaveCustomers w fuel (t_storeName t) (t_args t) (state srv) with
  | Returned _ job st =>
      let st :=
        if t_exportCsv t then
          match exportCustomersToCSV w (t_storeName t) (Some job) st with
          | Ok (_, st') => st'
          | Throw _ => st
          end
        else st in
      unmark_exporting {| state := st; activeExports := activeExports srv |} (t_storeName t)
  | Threw _ st =>
      unmark_exporting {| state := st; activeExports := activeExports srv |} (t_storeName t)
  | OutOfFuel st => {| state := st; activeExports := activeExports srv |}
  end.

(** [GET /api/status/:storeName] *)
Inductive StatusResponse : Type :=
| StatusInvalidStore
| StatusOf (storeName : string) (isExporting : bool) (customerCount : Z)
    (latestJob : option ExportJob).

Definition get_status (srv : Server) (storeName : string) : StatusResponse :=
  if negb (in_storeConfigs storeName) then StatusInvalidStore
  else
    StatusOf storeName (is_exporting srv storeName)
      (getCustomerCount (db (state srv)) storeName)
      (getLatestExportJob (db (state srv)) (Some storeName)).

(** [GET /api/download-csv/job/:jobId].  The paths that
    [exportCustomersToCSV] stores are absolute, and [path.resolve] leaves them
    as they are. *)
Inductive DownloadResponse : Type :=
| JobNotFound
| NoCsvFileForJob (job : string)
| NotOnDisk (filePath : string)
| FileSent (filePath content : string).

Definition download_status (r : DownloadResponse) : Z :=
  match r with
  | JobNotFound | NoCsvFileForJob _ | NotOnDisk _ => 404
  | FileSent _ _ => 200
  end.

Definition download_by_job (srv : Server) (job : string) : DownloadResponse :=
  match getExportJob (db (state srv)) job with
  | None => JobNotFound
  | Some j =>
      if falsy_opt (j_csvFilePath j) then NoCsvFileForJob job
      else
        let filePath := or_else (j_csvFilePath j) "" in
        match files (state srv) !! filePath with
        | None => NotOnDisk filePath
        | Some content => FileSent filePath content
        end
  end.

(** ** [cli.ts] *)

Inductive ExitCode : Type := Success | Failure.

(** [process.exit(0)] and [process.exit(1)]. *)
Definition exit_code (c : ExitCode) : Z :=
  match c with
  | Success => 0
  | Failure => 1
  end.

(** How [main] ends: with an exit code, or still fetching when the fuel is
    spent. *)
Inductive CliResult : Type :=
| Exit (code : ExitCode) (st : State)
| StillRunning (st : State).

Definition exit_of (o : Outcome) : CliResult :=
  match o with
  | Returned _ _ st => Exit Success st
  | Threw _ st => Exit Failure st
  | OutOfFuel st => StillRunning st
  end.

(** [main()], with [command] and [storeName] the two arguments of the
    command line.  What it prints is left out. *)
Definition cli_main (w : World) (fuel : nat) (command storeName : option string)
    (st : State) : CliResult :=
  if falsy_opt command then Exit Success st
  else
    let command := or_else command "" in
    if String.eqb command "list" then Exit Success st
    else if falsy_opt storeName then Exit Failure st
    else
      let storeName := or_else storeName "" in
      if negb (in_storeConfigs storeName) then Exit Failure st
      else if String.eqb command "fetch" then
        exit_of (fetchAndSaveCustomers w fuel storeName None st)
      else if String.eqb command "csv" then
        match exportCustomersToCSV w storeName None st with
        | Ok (_, st') => Exit Success st'
        | Throw _ => Exit Failure st
        end
      else if String.eqb command "both" then
        match fetchAndSaveCustomers w fuel storeName None st with
        | Returned _ job st' =>
            match exportCustomersToCSV w storeName (Some job) st' with
            | Ok (_, st'') => Exit Success st''
            | Throw _ => Exit Failure st'
            end
        | Threw _ st' => Exit Failure st'
        | OutOfFuel st' => StillRunning st'
        end
      else if String.eqb command "count" then Exit Success st
      else if String.eqb command "resume" then
        match List.find (fun job => bool_decide (j_status job = failed))
                (getExportJobsByStore (db st) storeName 10) with
        | None => Exit Failure st
        | Some failedJob =>
            if falsy_opt (j_lastCursor failedJob) then Exit Failure st
            else
              exit_of
                (call_fetchAndSaveCustomers w fuel storeName
                   (Some (j_id failedJob, j_lastCursor failedJob)) st)
        end
      else Exit Failure st.

(** * The reader of a CSV line

    The reader is the consumer's side, after RFC 4180: fields are separated
    by commas; a field that opens with a double quote runs to the closing
    quote, and two double quotes inside it stand for one. *)

Inductive reader : Type := FieldStart | Unquoted | Quoted | QuoteSeen.

Definition snoc (s : string) (c : ascii) : string := s +:+ String c EmptyString.

Fixpoint read_fields (st : reader) (cur : string) (s : string) : list string :=
  match s with
  | EmptyString => [cur]
  | String c s' =>
      match st with
      | FieldStart =>
          if Ascii.eqb c dquote then read_fields Quoted cur s'
          else if Ascii.eqb c comma then cur :: read_fields FieldStart EmptyString s'
          else read_fields Unquoted (snoc cur c) s'
      | Unquoted =>
          if Ascii.eqb c comma then cur :: read_fields FieldStart EmptyString s'
          else read_fields Unquoted (snoc cur c) s'
      | Quoted =>
          if Ascii.eqb c dquote then read_fields QuoteSeen cur s'
          else read_fields Quoted (snoc cur c) s'
      | QuoteSeen =>
          if Ascii.eqb c dquote then read_fields Quoted (snoc cur c) s'
          else if Ascii.eqb c comma then cur :: read_fields FieldStart EmptyString s'
          else read_fields Unquoted (snoc cur c) s'
      end
  end.

Definition rfc4180_fields (line : string) : list string :=
  read_fields FieldStart EmptyString line.

(** What follows a field on its line: nothing, or a comma and more fields. *)
Definition rest_fields (rest : string) : list string :=
  match rest with
  | EmptyString => []
  | String _ rest' => read_fields FieldStart EmptyString rest'
  end.

Definition field_end (rest : string) : Prop :=
  rest = EmptyString \/ exists rest', rest = String comma rest'.

(** The value of the column [c] of a row. *)
Definition column (c : string) (row : list (string * string)) : option string :=
  assoc c row.

(** The columns of a line, named as in the row it was written from. *)
Definition read_column (c : string) (customer : CustomerData) : option string :=
  assoc c (combine (fst <$> customerToCSVRow customer)
                   (rfc4180_fields (csvRowToLine (customerToCSVRow customer)))).

(** The reader of a CSV file: the text is cut into records at the line
    breaks that stand outside quotes, and a double quote opens or closes a
    quoted stretch; each record is then read as a line. *)
Fixpoint split_records (quoted : bool) (cur : string) (s : string) : list string :=
  match s with
  | EmptyString => if truthy cur then [cur] else []
  | String c s' =>
      if Ascii.eqb c dquote then split_records (negb quoted) (snoc cur c) s'
      else if Ascii.eqb c LF && negb quoted then cur :: split_records false EmptyString s'
      else split_records quoted (snoc cur c) s'
  end.

Definition rfc4180_records (text : string) : list (list string) :=
  rfc4180_fields <$> split_records false EmptyString text.

(** Whether the reader is inside quotes after [s], when it has met no line
    break outside quotes. *)
Fixpoint scan (quoted : bool) (s : string) : option bool :=
  match s with
  | EmptyString => Some quoted
  | String c s' =>
      if Ascii.eqb c dquote then scan (negb quoted) s'
      else if Ascii.eqb c LF && negb quoted then None
      else scan quoted s'
  end.

(** * Notions used in the statements *)

(** In a list ordered by [key] descending, [x] may stand before [y]. *)
Definition desc {A : Type} (key : A -> string) (x y : A) : Prop :=
  String.le (key y) (key x).

Definition key_and_data (r : CustomerRow) : string * string * CustomerData :=
  (row_id r, row_store_name r, row_data r).








(** The [last_cursor] column of a job, when the job exists. *)
Definition stored_cursor (d : Database) (job : string) : option (option string) :=
  j_lastCursor <$> getExportJob d job.

Definition loop_state (o : LoopOutcome) : State :=
  match o with
  | LoopDone _ st | LoopThrew _ st | LoopOutOfFuel st => st
  end.

(** A job record with its [processed_customers] column set. *)
Definition with_processed (j : ExportJob) (total : Z) : ExportJob :=
  {| j_id := j_id j;
     j_storeName := j_storeName j;
     j_status := j_status j;
     j_totalCustomers := j_totalCustomers j;
     j_processedCustomers := total;
     j_startedAt := j_startedAt j;
     j_completedAt := j_completedAt j;
     j_error := j_error j;
     j_csvFilePath := j_csvFilePath j;
     j_lastCursor := j_lastCursor j |}.

(** The message that a response makes the loop throw. *)
Definition thrown_by (r : ApiResponse) (msg : string) : Prop :=
  match r with
  | Rejected m => msg = m
  | GraphQLErrors errors => msg = "GraphQL Error: " +:+ errors
  | InvalidResponse => msg = "Invalid response from Shopify API"
  | CustomersPage _ _ _ => False
  end.

(** From [cursor] on, the store serves the pages [pages], the last one
    marked as such. *)
Inductive serves (shopify : Api) : option string -> list (list CustomerData) -> Prop :=
| serves_last cursor page next :
    shopify CUSTOMERS_PER_REQUEST cursor = CustomersPage page false next ->
    serves shopify cursor [page]
| serves_more cursor page next pages :
    shopify CUSTOMERS_PER_REQUEST cursor = CustomersPage page true next ->
    serves shopify next pages ->
    serves shopify cursor (page :: pages).

(** The id that [createExportJob] gives a job of [storeName] at the reading
    of the clock that [st] is at. *)
Definition new_job_id (w : World) (storeName : string) (st : State) : string :=
  "export_" +:+ storeName +:+ "_" +:+ pretty (epochMs (now w st)).

(** The store holds a row of id [x] filed under [storeName]. *)
Definition cached_under (d : Database) (storeName x : string) : Prop :=
  exists r, r ∈ customers d /\ row_id r = x /\ row_store_name r = storeName.


(** The three updates that [fetchAndSaveCustomers] makes to the status of
    its job. *)
Definition in_progress_update : JobUpdates :=
  {| u_status := Some in_progress; u_totalCustomers := None;
     u_processedCustomers := None; u_completedAt := None;
     u_error := None; u_csvFilePath := None; u_lastCursor := None |}.

Definition completed_update (total : Z) (at_time : string) : JobUpdates :=
  {| u_status := Some completed; u_totalCustomers := Some total;
     u_processedCustomers := None; u_completedAt := Some at_time;
     u_error := None; u_csvFilePath := None; u_lastCursor := None |}.

Definition failed_update (msg at_time : string) : JobUpdates :=
  {| u_status := Some failed; u_totalCustomers := None;
     u_processedCustomers := None; u_completedAt := Some at_time;
     u_error := Some msg; u_csvFilePath := None; u_lastCursor := None |}.

(** [fetchAndSaveCustomers] from the point where the id of its job is
    known: the job is set in progress, the loop runs, and the job is completed
    or failed. *)
Definition run_job (w : World) (shopify : Api) (storeName job : string) (fuel : nat)
    (st : State) : Outcome :=
  match fetch_loop w shopify storeName job fuel None 0
          (with_db st (updateExportJob (db st) job in_progress_update)) with
  | LoopDone total st' =>
      Returned total job
        (with_db (tick st')
           (updateExportJob (db st') job (completed_update total (toISOString (now w st')))))
  | LoopThrew msg st' =>
      Threw msg
        (with_db (tick st')
           (updateExportJob (db st') job (failed_update msg (toISOString (now w st')))))
  | LoopOutOfFuel st' => OutOfFuel st'
  end.

(** The record that [createExportJob] inserts for a job created in [st]. *)
Definition new_job (w : World) (storeName : string) (st : State) : ExportJob :=
  {| j_id := new_job_id w storeName st;
     j_storeName := storeName;
     j_status := pending;
     j_totalCustomers := 0;
     j_processedCustomers := 0;
     j_startedAt := toISOString (now w (tick st));
     j_completedAt := None;
     j_error := None;
     j_csvFilePath := None;
     j_lastCursor := None |}.

(** The state in which a run finds a job it has just created. *)
Definition with_new_job (w : World) (storeName : string) (st : State) : State :=
  with_db (tick (tick st))
    (with_export_jobs (db st) (export_jobs (db st) ++ [new_job w storeName st])).

(** The time a finished run has stamped its job with: the last reading of
    the clock before [st]. *)
Definition last_reading (w : World) (st : State) : string :=
  toISOString (clock w (Nat.pred (ticks st))).

(** A job record with its [csv_file_path] column set. *)
Definition with_csv_file (j : ExportJob) (file : string) : ExportJob :=
  {| j_id := j_id j;
     j_storeName := j_storeName j;
     j_status := j_status j;
     j_totalCustomers := j_totalCustomers j;
     j_processedCustomers := j_processedCustomers j;
     j_startedAt := j_startedAt j;
     j_completedAt := j_completedAt j;
     j_error := j_error j;
     j_csvFilePath := Some file;
     j_lastCursor := j_lastCursor j |}.

(** * Sample data

    The stores, clock, customers and jobs that the concrete runs use. *)

Definition sample_customer (n : nat) (note : option string) : CustomerData :=
  {| c_id := "gid://shopify/Customer/" +:+ pretty n;
     c_firstName := Some "Ada";
     c_lastName := None;
     c_displayName := "Customer " +:+ pretty n;
     c_defaultEmailAddress := None;
     c_defaultPhoneNumber := None;
     c_verifiedEmail := true;
     c_state := "ENABLED";
     c_locale := Some "en";
     c_note := note;
     c_tags := ["vip"; "newsletter"];
     c_createdAt := "2024-01-01T00:00:00Z";
     c_updatedAt := "2024-06-01T00:00:00Z";
     c_amountSpent := Some {| amount := "10.0"; currencyCode := "USD" |};
     c_numberOfOrders := "1";
     c_lifetimeDuration := None;
     c_addresses := None;
     c_defaultAddress := None;
     c_lastOrder := None;
     c_productSubscriberStatus := None;
     c_mergeable := None;
     c_originalCreatedDate := None;
     c_events_nodes := None;
     c_orders_nodes := None;
     c_statistics := None |}.

(** The [n]-th reading is [n] milliseconds after 2025-11-13T07:08:00Z. *)
Definition sample_clock : Clock :=
  fun n =>
    {| epochMs := 1763017680000 + Z.of_nat n;
       year := 2025; month := 11; day := 13;
       hour := 7; minute := 8;
       second := n / 1000; millisecond := n mod 1000 |}.

Definition sample_env : Env :=
  fun v =>
    if String.eqb v "EVISU_US_SHOP_DOMAIN" then Some "evisu-us.myshopify.com"
    else if String.eqb v "EVISU_US_ACCESS_TOKEN" then Some "shpat_us"
    else if String.eqb v "EVISU_HK_SHOP_DOMAIN" then Some "evisu-hk.myshopify.com"
    else if String.eqb v "EVISU_HK_ACCESS_TOKEN" then Some "shpat_hk"
    else None.

Definition empty_db : Database := {| customers := []; export_jobs := [] |}.




(** One page carrying customer 2 before customer 1. *)
Definition tied_cache : Database :=
  saveCustomers empty_db "evisu-us" [sample_customer 2 None; sample_customer 1 None]
    (sample_clock 0%nat).


Definition sample_world (shop : Api) : World :=
  {| env := sample_env; remote := fun _ _ => shop; clock := sample_clock;
     outputDir := "/app/exports" |}.

(** A job of [evisu-us] that failed after two pages, as the resume guide
    shows it: 500 customers processed, the cursor of the second page kept. *)
Definition failed_job : ExportJob :=
  {| j_id := "export_evisu-us_1763017680000";
     j_storeName := "evisu-us";
     j_status := failed;
     j_totalCustomers := 0;
     j_processedCustomers := 500;
     j_startedAt := "2025-11-13T07:08:00.001Z";
     j_completedAt := Some "2025-11-13T07:08:02.000Z";
     j_error := Some "Invalid response from Shopify API";
     j_csvFilePath := None;
     j_lastCursor := Some "cursor-500" |}.

Definition server_of (d : Database) : Server :=
  {| state := {| db := d; files := ∅; ticks := 5000; requests := [] |};
     activeExports := ∅ |}.

Definition plain_body : Body := {| exportCsv := false; jobId := None |}.


(** [count] customers numbered from [first]. *)
Definition sample_page (first count : nat) : list CustomerData :=
  (fun n => sample_customer n None) <$> seq first count.

(** A store of 520 customers, served in pages of 250, 250 and 20. *)
Definition upstream_520 : Api :=
  fun _ after =>
    match after with
    | None => CustomersPage (sample_page 1 250) true (Some "cursor-250")
    | Some c =>
        if String.eqb c "cursor-250"
        then CustomersPage (sample_page 251 250) true (Some "cursor-500")
        else if String.eqb c "cursor-500"
        then CustomersPage (sample_page 501 20) false (Some "cursor-520")
        else InvalidResponse
    end.

(** The cache and the job table after two committed pages and a failure. *)
Definition failed_db : Database :=
  {| customers :=
       (customer_row "evisu-us" "2025-11-13T07:08:00.700Z" <$> sample_page 1 250)
       ++ (customer_row "evisu-us" "2025-11-13T07:08:01.400Z" <$> sample_page 251 250);
     export_jobs := [failed_job] |}.

Definition resume_task : Task :=
  {| t_storeName := "evisu-us";
     t_args := Some ("export_evisu-us_1763017680000", Some "cursor-500");
     t_exportCsv := false |}.

Definition resumed_server : Server := mark_exporting (server_of failed_db) "evisu-us".

(** A store of three customers, served in one page. *)
Definition upstream_3 : Api :=
  fun _ after =>
    match after with
    | None => CustomersPage (sample_page 1 3) false (Some "cursor-3")
    | Some _ => InvalidResponse
    end.

(** A note with a comma, a quoted word and a line break. *)
Definition quoted_note : string :=
  "Hello, " +:+ String dquote ("VIP" +:+ String dquote (String LF "customer")).

(** A store whose every request is rejected. *)
Definition rejecting : Api := fun _ _ => Rejected "fetch failed".

(** * Lemmas and theorems *)

(** ** The [customers] table *)

(** The rows that an insertion keeps are those of another id. *)
Lemma insert_or_replace_spec (r : CustomerRow) (t : list CustomerRow) :
  insert_or_replace r t = filter (fun x => row_id x <> row_id r) t ++ [r].
Proof.
  unfold insert_or_replace. f_equal.
  induction t as [|x t IH]; [done|].
  cbn [List.filter]. rewrite filter_cons, IH.
  destruct (String.eqb_spec (row_id x) (row_id r)); case_decide; done.
Qed.

Section Upsert.
Variables (storeName now : string).

Local Abbreviation row := (customer_row storeName now).

Lemma elem_of_insert_or_replace (r x : CustomerRow) (t : list CustomerRow) :
  x ∈ insert_or_replace r t <-> (x ∈ t /\ row_id x <> row_id r) \/ x = r.
Proof.
  rewrite insert_or_replace_spec.
  rewrite elem_of_app, list_elem_of_filter, list_elem_of_singleton. tauto.
Qed.

Lemma insertMany_cons c cs t :
  insertMany storeName now (c :: cs) t
  = insertMany storeName now cs (insert_or_replace (row c) t).
Proof. reflexivity. Qed.

(** A batch first clears the ids it carries, then appends what the batch
    alone leaves in an empty table. *)
Lemma insertMany_split cs : forall t,
  insertMany storeName now cs t
  = filter (fun r => row_id r ∉ c_id <$> cs) t ++ insertMany storeName now cs [].
Proof.
  induction cs as [|c cs IH]; intros t.
  - cbn. rewrite app_nil_r. induction t as [|x t IHt]; [done|].
    rewrite filter_cons_True; [by f_equal | apply not_elem_of_nil].
  - rewrite !insertMany_cons, IH, (IH (insert_or_replace _ [])).
    rewrite !insert_or_replace_spec, filter_nil, app_nil_l, !filter_app, <- app_assoc.
    f_equal. rewrite list_filter_filter. apply list_filter_iff.
    intros x. cbn. rewrite not_elem_of_cons. tauto.
Qed.

Lemma insertMany_from_batch cs : forall t x,
  x ∈ insertMany storeName now cs t -> x ∈ t \/ exists c, c ∈ cs /\ x = row c.
Proof.
  induction cs as [|c cs IH]; intros t x Hx; [by left|].
  rewrite insertMany_cons in Hx. apply IH in Hx as [Hx | (c' & Hc' & ->)].
  - apply elem_of_insert_or_replace in Hx as [[Hx _] | ->]; [by left|].
    right. exists c. split; [apply list_elem_of_here | done].
  - right. exists c'. split; [by apply list_elem_of_further | done].
Qed.

End Upsert.

Lemma filter_none {A} (P : A -> Prop) `{forall x, Decision (P x)} (l : list A) :
  (forall x, x ∈ l -> ~ P x) -> filter P l = [].
Proof.
  induction l as [|x l IH]; intros Hl; [done|].
  rewrite filter_cons_False by (apply Hl, list_elem_of_here).
  apply IH. intros y Hy. apply Hl. by apply list_elem_of_further.
Qed.




(** Every customer of the batch has its row afterwards. *)
Lemma insertMany_covers storeName now cs : forall t c,
  c ∈ cs -> exists r, r ∈ insertMany storeName now cs t /\ row_id r = c_id c.
Proof.
  induction cs as [|c' cs IH]; intros t c Hc; [by apply elem_of_nil in Hc|].
  rewrite insertMany_cons.
  destruct (decide (c_id c ∈ c_id <$> cs)) as [Hin | Hnin].
  - apply list_elem_of_fmap in Hin as (c2 & Heq & Hc2).
    destruct (IH (insert_or_replace (customer_row storeName now c') t) c2 Hc2) as (r & Hr & Hid).
    exists r. split; [done | congruence].
  - apply elem_of_cons in Hc as [-> | Hc].
    + exists (customer_row storeName now c'). split; [|done].
      rewrite insertMany_split. apply elem_of_app. left.
      apply list_elem_of_filter. split; [done|].
      apply elem_of_insert_or_replace. by right.
    + exfalso. apply Hnin. by apply list_elem_of_fmap_2.
Qed.

(** ** The key of the [customers] table *)

(** A row that bears an id of the batch was written by the batch. *)
Lemma insertMany_batch_rows storeName now cs t r :
  r ∈ insertMany storeName now cs t -> row_id r ∈ c_id <$> cs ->
  r = customer_row storeName now (row_data r).
Proof.
  intros Hr Hid. rewrite insertMany_split in Hr.
  apply elem_of_app in Hr as [Hr | Hr].
  - apply list_elem_of_filter in Hr as [Hn _]. by destruct Hn.
  - apply insertMany_from_batch in Hr as [Hr | (c & _ & ->)]; [by apply elem_of_nil in Hr|].
    done.
Qed.




(** ** Upserting a page twice *)

Lemma key_and_data_customer_row storeName t1 t2 c :
  key_and_data (customer_row storeName t1 c) = key_and_data (customer_row storeName t2 c).
Proof. reflexivity. Qed.






(** ** [ORDER BY ... DESC] *)

Section OrderByFacts.
Context {A : Type} (key : A -> string).

Lemma insert_desc_Permutation x l : insert_desc key x l ≡ₚ x :: l.
Proof.
  induction l as [|y l IH]; cbn; [done|].
  destruct (String.leb (key y) (key x)); [done|].
  rewrite IH. apply perm_swap.
Qed.

Lemma order_by_desc_Permutation l : order_by_desc key l ≡ₚ l.
Proof.
  induction l as [|x l IH]; cbn; [done|].
  by rewrite insert_desc_Permutation, IH.
Qed.

Lemma leb_false_le (s1 s2 : string) : String.leb s1 s2 = false -> String.le s2 s1.
Proof.
  intros Hf. destruct (String.le_total s1 s2) as [Hle | Hle]; [|done].
  unfold String.le in Hle. rewrite Hf in Hle. by destruct Hle.
Qed.

Lemma insert_desc_sorted x l :
  StronglySorted (desc key) l -> StronglySorted (desc key) (insert_desc key x l).
Proof.
  induction l as [|y l IH]; intros Hs; cbn.
  - repeat constructor.
  - apply StronglySorted_inv in Hs as [Hs Hy].
    destruct (String.leb (key y) (key x)) eqn:Hyx.
    + constructor; [by constructor|].
      constructor; [unfold desc, String.le; by rewrite Hyx|].
      eapply Forall_impl; [exact Hy|]. intros z Hz. unfold desc in *.
      etrans; [exact Hz|]. unfold String.le. by rewrite Hyx.
    + constructor; [by apply IH|].
      rewrite insert_desc_Permutation. constructor; [|done].
      by apply leb_false_le.
Qed.

Lemma order_by_desc_sorted l : StronglySorted (desc key) (order_by_desc key l).
Proof.
  induction l as [|x l IH]; cbn; [constructor | by apply insert_desc_sorted].
Qed.


End OrderByFacts.

(** ** Reading a store back *)





(** ** The name of the CSV file *)

Lemma append_cons c s1 s2 : String c s1 +:+ s2 = String c (s1 +:+ s2).
Proof. reflexivity. Qed.










(** ** The routes *)

Lemma is_exporting_mark srv storeName : is_exporting (mark_exporting srv storeName) storeName = true.
Proof. unfold is_exporting, mark_exporting. cbn. by rewrite lookup_insert_eq. Qed.

(** C5 (as amended).  For a configured store, a start is refused with 409
    exactly when [activeExports] marks the store, and a refused start changes
    nothing; the jobs recorded in the database are not consulted.  A start
    that goes through marks the store, so a second start is refused for as
    long as the first export is running. *)
Theorem post_export_conflict (srv : Server) (storeName : string) (body : Body) :
  in_storeConfigs storeName = true ->
  (is_exporting srv storeName = true ->
     post_export srv storeName body = (AlreadyInProgress storeName, srv, None))
  /\ (is_exporting srv storeName = false ->
      exists r srv' t,
        post_export srv storeName body = (r, srv', Some t)
        /\ http_status r = 200
        /\ state srv' = state srv
        /\ forall body',
             post_export srv' storeName body' = (AlreadyInProgress storeName, srv', None)).
Proof.
  intros Hin. unfold post_export. rewrite Hin. cbn [negb]. split; intros Hex; rewrite Hex.
  - done.
  - eexists _, _, _. split_and!; [done | done | done |].
    intros body'. by rewrite is_exporting_mark.
Qed.

Lemma post_export_conflict_witness :
  post_export (mark_exporting (server_of empty_db) "evisu-us") "evisu-us" plain_body
  = (AlreadyInProgress "evisu-us", mark_exporting (server_of empty_db) "evisu-us", None).
Proof.
  apply (post_export_conflict (mark_exporting (server_of empty_db) "evisu-us")
           "evisu-us" plain_body); [reflexivity|].
  apply is_exporting_mark.
Defined.

(** A failed job on record does not stand in the way of a new start. *)
Lemma start_despite_failed_job :
  let srv := server_of {| customers := []; export_jobs := [failed_job] |} in
  getExportJobsByStore (db (state srv)) "evisu-us" 10 = [failed_job]
  /\ fst (fst (post_export srv "evisu-us" plain_body))
     = ExportStarted "evisu-us" "export_evisu-us_1763017680000" None
  /\ http_status (fst (fst (post_export srv "evisu-us" plain_body))) <> 409.
Proof. by vm_compute. Qed.






(** ** The job record across a run *)

Lemma getExportJob_id d jobId j : getExportJob d jobId = Some j -> j_id j = jobId.
Proof.
  unfold getExportJob. intros Hf. apply find_some in Hf as [_ Hf].
  by apply String.eqb_eq.
Qed.

Lemma find_job_fmap (g : ExportJob -> ExportJob) (jobId : string) (l : list ExportJob) :
  (forall j, j_id (g j) = j_id j) ->
  List.find (fun j => String.eqb (j_id j) jobId) (g <$> l)
  = g <$> List.find (fun j => String.eqb (j_id j) jobId) l.
Proof.
  intros Hg. induction l as [|x l IH]; [done|].
  cbn [fmap list_fmap List.find]. rewrite Hg.
  destruct (String.eqb (j_id x) jobId); [done | apply IH].
Qed.

Lemma getExportJob_update d jobId updates jobId' :
  getExportJob (updateExportJob d jobId updates) jobId'
  = (fun j => if String.eqb (j_id j) jobId then apply_updates updates j else j)
      <$> getExportJob d jobId'.
Proof.
  unfold getExportJob, updateExportJob. cbn [export_jobs with_export_jobs].
  apply find_job_fmap. intros j. by destruct (String.eqb (j_id j) jobId).
Qed.

(** An update that passes no [lastCursor] leaves every stored cursor alone. *)
Lemma stored_cursor_update d jobId updates job :
  u_lastCursor updates = None ->
  stored_cursor (updateExportJob d jobId updates) job = stored_cursor d job.
Proof.
  intros Hu. unfold stored_cursor. rewrite getExportJob_update.
  destruct (getExportJob d job) as [j|]; [|done].
  cbn. destruct (String.eqb (j_id j) jobId); [|done].
  cbn. by rewrite Hu.
Qed.

(** The fetch loop writes [processed_customers] and nothing else of a job:
    no cursor is stored and none is cleared. *)
Lemma fetch_loop_stored_cursor w shopify storeName exportJobId job fuel :
  forall cursor total st,
    stored_cursor
      (db (loop_state (fetch_loop w shopify storeName exportJobId fuel cursor total st))) job
    = stored_cursor (db st) job.
Proof.
  induction fuel as [|fuel IH]; intros cursor total st; [done|].
  cbn [fetch_loop].
  destruct (shopify CUSTOMERS_PER_REQUEST cursor) as [msg|errors| |nodes more next]; try done.
  destruct nodes as [|c nodes].
  - destruct more; [by rewrite IH | done].
  - destruct more; [rewrite IH|]; cbn [loop_state db with_db];
      by rewrite stored_cursor_update.
Qed.

(** A job that [createExportJob] inserts bore an id not on record. *)
Lemma newExportJob_fresh w storeName st e st0 :
  newExportJob w storeName st = Ok (e, st0) -> getExportJob (db st) e = None.
Proof.
  unfold newExportJob, createExportJob. cbn zeta. cbn [j_id].
  destruct (getExportJob (db st) _) as [j1|] eqn:Hfresh; [by cbn|].
  by intros [= <- _].
Qed.

(** C2.  When [fetchAndSaveCustomers] returns for a job that was on record,
    the job is completed and its [last_cursor] is what it was before the call:
    the completing update does not clear the cursor. *)
Theorem completion_keeps_cursor (w : World) (fuel : nat) (storeName : string)
    (jobId : option string) (st st' : State) (total : Z) (job : string) (j : ExportJob) :
  fetchAndSaveCustomers w fuel storeName jobId st = Returned total job st' ->
  getExportJob (db st) job = Some j ->
  exists j',
    getExportJob (db st') job = Some j'
    /\ j_status j' = completed
    /\ j_lastCursor j' = j_lastCursor j.
Proof.
  unfold fetchAndSaveCustomers. intros Hrun Hj.
  destruct (createShopifyClient (env w) (remote w) storeName) as [shopify|msg]; [|done].
  assert (forall e st0, newExportJob w storeName st = Ok (e, st0) -> e = job -> st0 = st)
    as Hnew.
  { intros e st0 Hn He. apply newExportJob_fresh in Hn. congruence. }
  set (created := match (if falsy_opt jobId then None else getExportJob (db st) (or_else jobId ""))
                  with
                  | Some j0 => if truthy (j_id j0) then Ok (j_id j0, st)
                               else newExportJob w storeName st
                  | None => newExportJob w storeName st
                  end) in Hrun.
  assert (forall e st0, created = Ok (e, st0) -> e = job -> st0 = st) as Hcreated.
  { subst created. intros e st0.
    destruct (if falsy_opt jobId then None else getExportJob (db st) (or_else jobId ""))
      as [j0|]; [|apply Hnew].
    destruct (truthy (j_id j0)); [|apply Hnew]. by intros [= <- <-]. }
  destruct created as [[e st0]|msg]; [|done].
  destruct (fetch_loop w shopify storeName e fuel None 0 _) as [t stl|msg stl|stl] eqn:Hloop;
    [|done|done].
  injection Hrun as <- <- <-.
  specialize (Hcreated e st0 eq_refl eq_refl) as ->.
  pose proof (fetch_loop_stored_cursor w shopify storeName e e fuel None 0
                (with_db st (updateExportJob (db st) e
                   {| u_status := Some in_progress; u_totalCustomers := None;
                      u_processedCustomers := None; u_completedAt := None;
                      u_error := None; u_csvFilePath := None; u_lastCursor := None |})))
    as Hcur.
  rewrite Hloop in Hcur. cbn [loop_state db with_db] in Hcur.
  rewrite stored_cursor_update in Hcur by done.
  unfold stored_cursor in Hcur. rewrite Hj in Hcur.
  destruct (getExportJob (db stl) e) as [jl|] eqn:Hjl; [|done].
  cbn in Hcur. injection Hcur as Hcur.
  cbn [db with_db]. rewrite getExportJob_update, Hjl. cbn [fmap option_fmap option_map].
  rewrite (getExportJob_id _ _ _ Hjl), String.eqb_refl.
  eexists. split_and!; [done | done | done].
Qed.

(** The first request of the loop carries the cursor the loop is entered
    with. *)
Lemma fetch_loop_requests w shopify storeName exportJobId fuel :
  forall cursor total st,
  exists later,
    requests (loop_state (fetch_loop w shopify storeName exportJobId (S fuel) cursor total st))
    = later ++ cursor :: requests st.
Proof.
  induction fuel as [|fuel IH]; intros cursor total st.
  - exists []. cbn [fetch_loop].
    destruct (shopify CUSTOMERS_PER_REQUEST cursor) as [msg|errors| |nodes more next];
      try reflexivity.
    destruct nodes as [|c nodes]; destruct more; reflexivity.
  - remember (S fuel) as fuel' eqn:Hfuel. cbn [fetch_loop].
    destruct (shopify CUSTOMERS_PER_REQUEST cursor) as [msg|errors| |nodes more next];
      try (exists []; reflexivity).
    destruct nodes as [|c nodes]; (destruct more; [|exists []; reflexivity]);
      subst fuel'.
    + destruct (IH next total (sent cursor st)) as [later Hl].
      exists (later ++ [next]). rewrite Hl. cbn [requests sent]. by rewrite <- app_assoc.
    + match goal with
      | |- context [fetch_loop _ _ _ _ _ _ ?t ?s] =>
          destruct (IH next t s) as [later Hl]
      end.
      exists (later ++ [next]). rewrite Hl. cbn [requests sent with_db tick].
      by rewrite <- app_assoc.
Qed.

(** Whatever cursor a caller passes along with the id of a job on record,
    the first request of the run is sent without a cursor. *)
Lemma resumed_run_first_request w fuel storeName shopify job j cursor st :
  createShopifyClient (env w) (remote w) storeName = Ok shopify ->
  getExportJob (db st) job = Some j ->
  truthy job = true ->
  exists later,
    requests
      (outcome_state
         (call_fetchAndSaveCustomers w (S fuel) storeName (Some (job, cursor)) st))
    = later ++ None :: requests st.
Proof.
  intros Hclient Hj Hjob. unfold call_fetchAndSaveCustomers, fetchAndSaveCustomers.
  rewrite Hclient. cbn [falsy_opt or_else]. rewrite Hjob. cbn [negb]. rewrite Hj.
  rewrite (getExportJob_id _ _ _ Hj), Hjob.
  match goal with
  | |- context [fetch_loop w shopify storeName job (S fuel) None 0 ?s] =>
      destruct (fetch_loop_requests w shopify storeName job fuel None 0 s) as [later Hl];
      destruct (fetch_loop w shopify storeName job (S fuel) None 0 s) as [t stl|msg stl|stl]
  end; exists later; exact Hl.
Qed.

(** ** A resumed run *)

(** C1.  The failed job holds 500 processed customers and the cursor of
    the second page.  The resume route accepts the request and hands the id
    and the cursor to [fetchAndSaveCustomers], which sends its first request
    without a cursor, counts from zero and fetches all three pages again:
    after the first page the job shows 250 processed customers, fewer than
    the 500 it held. *)
Theorem resume_refetches_from_first_page :
  post_resume (server_of failed_db) "evisu-us" plain_body
  = (ExportResumed "evisu-us" "export_evisu-us_1763017680000" 500 None,
     resumed_server, Some resume_task)
  /\ (let st := state (run_task (sample_world upstream_520) 10 resume_task resumed_server) in
      rev (requests st) = [None; Some "cursor-250"; Some "cursor-500"]
      /\ j_processedCustomers <$> getExportJob (db st) "export_evisu-us_1763017680000"
         = Some 520
      /\ getCustomerCount (db st) "evisu-us" = 520)
  /\ (let st := state (run_task (sample_world upstream_520) 1 resume_task resumed_server) in
      requests st = [None]
      /\ j_processedCustomers <$> getExportJob (db st) "export_evisu-us_1763017680000"
         = Some 250).
Proof. vm_compute. repeat split; reflexivity. Qed.

(** C3.  While the resumed run is between its first and second request the
    job record shows 250 processed customers, where it showed 500 before the
    resume. *)
Theorem resume_lowers_processed_count :
  let job := "export_evisu-us_1763017680000" in
  let w := sample_world upstream_520 in
  let st := state resumed_server in
  j_processedCustomers <$> getExportJob (db st) job = Some 500
  /\ j_processedCustomers
       <$> getExportJob (db (outcome_state (fetchAndSaveCustomers w 1 "evisu-us" (Some job) st))) job
     = Some 250
  /\ j_status
       <$> getExportJob (db (outcome_state (fetchAndSaveCustomers w 1 "evisu-us" (Some job) st))) job
     = Some in_progress.
Proof. vm_compute. repeat split; reflexivity. Qed.

Lemma completion_keeps_cursor_witness :
  let job := "export_evisu-us_1763017680000" in
  let w := sample_world upstream_3 in
  let st := state (server_of {| customers := []; export_jobs := [failed_job] |}) in
  exists j',
    getExportJob (db (outcome_state (fetchAndSaveCustomers w 10 "evisu-us" (Some job) st))) job
    = Some j'
    /\ j_status j' = completed
    /\ j_lastCursor j' = Some "cursor-500".
Proof.
  intros job w st.
  apply (completion_keeps_cursor w 10 "evisu-us" (Some job) st _ 3 job failed_job);
    [vm_compute; reflexivity | reflexivity].
Defined.

(** ** Escaping and reading back *)

Lemma snoc_append cur c v : snoc cur c +:+ v = cur +:+ String c v.
Proof.
  unfold snoc. induction cur as [|a cur IH]; [reflexivity|].
  rewrite !append_cons. by rewrite IH.
Qed.

Lemma append_empty_r s : s +:+ EmptyString = s.
Proof. induction s as [|a s IH]; [reflexivity|]. rewrite append_cons. by rewrite IH. Qed.

Lemma read_unquoted v : forall cur rest,
  includes comma v = false -> field_end rest ->
  read_fields Unquoted cur (v +:+ rest) = (cur +:+ v) :: rest_fields rest.
Proof.
  induction v as [|c v IH]; intros cur rest Hv Hrest.
  - rewrite append_empty_r. destruct Hrest as [-> | [rest' ->]]; reflexivity.
  - cbn [includes] in Hv. apply orb_false_elim in Hv as [Hc Hv].
    rewrite append_cons. cbn [read_fields]. rewrite Hc, IH by done.
    by rewrite snoc_append.
Qed.

Lemma read_quoted v : forall cur rest,
  field_end rest ->
  read_fields Quoted cur (double_quotes v +:+ String dquote rest)
  = (cur +:+ v) :: rest_fields rest.
Proof.
  induction v as [|c v IH]; intros cur rest Hrest.
  - rewrite append_empty_r. destruct Hrest as [-> | [rest' ->]]; reflexivity.
  - unfold double_quotes. cbn [replace_all]. fold (double_quotes v).
    unfold is_dquote. destruct (Ascii.eqb c dquote) eqn:Hc.
    + apply Ascii.eqb_eq in Hc as ->.
      unfold two_dquotes. rewrite !append_cons. cbn [read_fields String.append].
      rewrite Ascii.eqb_refl, IH by done. by rewrite snoc_append.
    + rewrite append_cons. cbn [read_fields]. rewrite Hc, IH by done.
      by rewrite snoc_append.
Qed.

Lemma append_assoc (s1 s2 s3 : string) : (s1 +:+ s2) +:+ s3 = s1 +:+ (s2 +:+ s3).
Proof.
  induction s1 as [|a s1 IH]; [reflexivity|]. rewrite !append_cons. by rewrite IH.
Qed.

(** One escaped field, read back from the start of a field. *)
Lemma read_escaped v rest :
  field_end rest ->
  read_fields FieldStart EmptyString (escapeCSVField v +:+ rest) = v :: rest_fields rest.
Proof.
  intros Hrest. unfold escapeCSVField.
  destruct (includes comma v || includes dquote v || includes LF v || includes CR v)
    eqn:Hspecial.
  - rewrite !append_cons, append_assoc, append_cons.
    change (EmptyString +:+ rest) with rest.
    cbn [read_fields]. rewrite Ascii.eqb_refl. by rewrite read_quoted.
  - apply orb_false_elim in Hspecial as [Hspecial _].
    apply orb_false_elim in Hspecial as [Hspecial _].
    apply orb_false_elim in Hspecial as [Hcomma Hquote].
    destruct v as [|c v].
    + destruct Hrest as [-> | [rest' ->]]; reflexivity.
    + cbn [includes] in Hcomma, Hquote.
      apply orb_false_elim in Hcomma as [Hc1 Hcomma].
      apply orb_false_elim in Hquote as [Hc2 _].
      rewrite append_cons. cbn [read_fields]. rewrite Hc1, Hc2.
      by rewrite read_unquoted.
Qed.

Lemma concat_cons_cons sep (x y : string) (l : list string) :
  String.concat sep (x :: y :: l) = x +:+ sep +:+ String.concat sep (y :: l).
Proof. reflexivity. Qed.

(** A line of escaped fields reads back as the fields that were escaped. *)
Lemma rfc4180_fields_escaped (v : string) (vs : list string) :
  rfc4180_fields (String.concat "," (escapeCSVField <$> (v :: vs))) = v :: vs.
Proof.
  unfold rfc4180_fields. revert v.
  induction vs as [|v' vs IH]; intros v.
  - cbn [fmap list_fmap String.concat].
    rewrite <- (append_empty_r (escapeCSVField v)), read_escaped by (by left).
    done.
  - cbn [fmap list_fmap]. rewrite concat_cons_cons.
    rewrite read_escaped by (right; by eexists).
    cbn [rest_fields String.append]. f_equal. apply IH.
Qed.

(** Every line that [csvRowToLine] writes reads back as the values of the
    row it was given. *)
Lemma csvRowToLine_reads_back (row : list (string * string)) :
  row <> [] -> rfc4180_fields (csvRowToLine row) = snd <$> row.
Proof.
  destruct row as [|kv row]; [done|]. intros _. unfold csvRowToLine.
  change (fun kv : string * string => escapeCSVField (snd kv)) with (escapeCSVField ∘ (snd : string * string -> string)).
  rewrite list_fmap_compose, fmap_cons. apply rfc4180_fields_escaped.
Qed.

Lemma customer_line_reads_back (customer : CustomerData) :
  rfc4180_fields (csvRowToLine (customerToCSVRow customer))
  = snd <$> customerToCSVRow customer.
Proof. by apply csvRowToLine_reads_back. Qed.

(** C8.  A customer whose note holds a comma, a quoted word and a line
    break: the row holds the note with its quotes already doubled,
    [escapeCSVField] doubles them once more, and the line reads back with two
    quotes wherever the note has one.  The other columns read back as the
    customer has them. *)
Theorem note_is_escaped_twice :
  let customer := sample_customer 7 (Some quoted_note) in
  c_note customer = Some quoted_note
  /\ includes comma quoted_note && includes dquote quoted_note && includes LF quoted_note = true
  /\ column "note" (customerToCSVRow customer) = Some (double_quotes quoted_note)
  /\ read_column "note" customer = Some (double_quotes quoted_note)
  /\ read_column "note" customer <> c_note customer
  /\ read_column "id" customer = Some (c_id customer)
  /\ read_column "displayName" customer = Some (c_displayName customer)
  /\ read_column "tags" customer = Some "vip, newsletter".
Proof.
  cbn zeta. split_and!; try (vm_compute; reflexivity).
  vm_compute. discriminate.
Qed.


(** * Further properties of the code *)

(** ** Counting and purging the cache *)

(** X1.  [getCustomerCount] counts exactly the customers that
    [getCustomersByStore] returns. *)
Theorem getCustomerCount_getCustomersByStore (d : Database) (storeName : string) :
  getCustomerCount d storeName = Z.of_nat (length (getCustomersByStore d storeName)).
Proof.
  unfold getCustomerCount, getCustomersByStore, select_by_store.
  by rewrite length_fmap, (Permutation_length (order_by_desc_Permutation _ _)).
Qed.

Lemma filter_store_other (s s' : string) (t : list CustomerRow) :
  s' <> s ->
  filter (fun r => row_store_name r = s') (filter (fun r => row_store_name r <> s) t)
  = filter (fun r => row_store_name r = s') t.
Proof.
  intros Hne. rewrite list_filter_filter. apply list_filter_iff.
  intros r. split; [tauto | intros ->; done].
Qed.

(** X2.  [deleteCustomersByStore] reports the number of customers the store
    had, leaves none of them, and touches neither the customers of another
    store nor the jobs. *)
Theorem deleteCustomersByStore_purges (d : Database) (storeName : string) :
  let d' := fst (deleteCustomersByStore d storeName) in
  snd (deleteCustomersByStore d storeName) = getCustomerCount d storeName
  /\ getCustomersByStore d' storeName = []
  /\ getCustomerCount d' storeName = 0
  /\ (forall other, other <> storeName ->
        getCustomersByStore d' other = getCustomersByStore d other
        /\ getCustomerCount d' other = getCustomerCount d other)
  /\ export_jobs d' = export_jobs d.
Proof.
  cbn. unfold getCustomersByStore, getCustomerCount, select_by_store. cbn.
  assert (filter (fun r => row_store_name r = storeName)
            (filter (fun r => row_store_name r <> storeName) (customers d)) = []) as Hnone.
  { apply filter_none. intros r Hr Heq. by apply list_elem_of_filter in Hr as [Hr _]. }
  split_and!; try done.
  - by rewrite Hnone.
  - by rewrite Hnone.
  - intros other Hne. by rewrite filter_store_other.
Qed.

(** ** Saving a page and reading it back *)

Lemma filter_all {A} (P : A -> Prop) `{forall x, Decision (P x)} (l : list A) :
  (forall x, x ∈ l -> P x) -> filter P l = l.
Proof.
  induction l as [|x l IH]; intros Hl; [done|].
  rewrite filter_cons_True by (apply Hl, list_elem_of_here).
  f_equal. apply IH. intros y Hy. by apply Hl, list_elem_of_further.
Qed.

(** A page of distinct ids, none of them stored, is appended as it comes. *)
Lemma insertMany_fresh storeName now cs : forall t,
  NoDup (c_id <$> cs) ->
  (forall c, c ∈ cs -> c_id c ∉ row_id <$> t) ->
  insertMany storeName now cs t = t ++ (customer_row storeName now <$> cs).
Proof.
  induction cs as [|c cs IH]; intros t Hnd Hfresh.
  - cbn. by rewrite app_nil_r.
  - rewrite insertMany_cons. rewrite fmap_cons in Hnd. apply NoDup_cons in Hnd as [Hc Hnd].
    rewrite insert_or_replace_spec, filter_all.
    + rewrite IH; [by rewrite <- app_assoc | done |].
      intros c' Hc'. rewrite fmap_app, elem_of_app. intros [Hin | Hin].
      * by apply (Hfresh c'); [apply list_elem_of_further|].
      * cbn in Hin. apply list_elem_of_singleton in Hin.
        apply Hc. rewrite <- Hin. by apply list_elem_of_fmap_2.
    + intros x Hx Heq. apply (Hfresh c); [apply list_elem_of_here|].
      cbn in Heq. rewrite <- Heq. by apply list_elem_of_fmap_2.
Qed.

(** X3.  Saving a page of distinct ids drops the stored rows that bear one
    of these ids and appends one row per customer, in page order; every
    customer of the page is then among the customers read back for the store,
    and the store counts its remaining rows plus the page. *)
Theorem saved_page_is_read_back (d : Database) (storeName : string)
    (cs : list CustomerData) (t : Date) :
  NoDup (c_id <$> cs) ->
  let d' := saveCustomers d storeName cs t in
  customers d'
  = filter (fun r => row_id r ∉ c_id <$> cs) (customers d)
    ++ (customer_row storeName (toISOString t) <$> cs)
  /\ (forall c, c ∈ cs -> c ∈ getCustomersByStore d' storeName)
  /\ getCustomerCount d' storeName
     = Z.of_nat (length (filter (fun r => row_store_name r = storeName)
                           (filter (fun r => row_id r ∉ c_id <$> cs) (customers d))))
       + Z.of_nat (length cs).
Proof.
  intros Hnd d'.
  assert (customers d'
          = filter (fun r => row_id r ∉ c_id <$> cs) (customers d)
            ++ (customer_row storeName (toISOString t) <$> cs)) as Hrows.
  { subst d'. unfold saveCustomers. cbn [customers with_customers].
    rewrite insertMany_split. f_equal.
    rewrite insertMany_fresh; [done | done |]. intros c _. cbn. apply not_elem_of_nil. }
  assert (filter (fun r => row_store_name r = storeName)
            (customer_row storeName (toISOString t) <$> cs)
          = customer_row storeName (toISOString t) <$> cs) as Hpage.
  { apply filter_all. intros r Hr. by apply list_elem_of_fmap in Hr as (c & -> & _). }
  split_and!.
  - done.
  - intros c Hc. unfold getCustomersByStore, select_by_store.
    apply list_elem_of_fmap. exists (customer_row storeName (toISOString t) c).
    split; [done|]. rewrite order_by_desc_Permutation, Hrows, filter_app, Hpage.
    apply elem_of_app. right. by apply list_elem_of_fmap_2.
  - unfold getCustomerCount. rewrite Hrows, filter_app, Hpage, length_app, length_fmap.
    lia.
Qed.

Lemma saved_page_is_read_back_witness :
  sample_customer 2 None ∈ getCustomersByStore tied_cache "evisu-us".
Proof.
  apply (saved_page_is_read_back empty_db "evisu-us"
           [sample_customer 2 None; sample_customer 1 None] (sample_clock 0%nat)).
  - vm_compute. apply NoDup_cons. split; [|apply NoDup_singleton].
    intros Hin. apply list_elem_of_singleton in Hin. discriminate.
  - apply list_elem_of_here.
Defined.

(** ** The job table *)

Lemma find_job_app (jobId : string) (l1 l2 : list ExportJob) :
  List.find (fun j => String.eqb (j_id j) jobId) (l1 ++ l2)
  = match List.find (fun j => String.eqb (j_id j) jobId) l1 with
    | Some j => Some j
    | None => List.find (fun j => String.eqb (j_id j) jobId) l2
    end.
Proof.
  induction l1 as [|x l1 IH]; [done|]. cbn.
  by destruct (String.eqb (j_id x) jobId).
Qed.

(** X4.  [createExportJob] either inserts a pending job with zero counters
    and no cursor, found afterwards under its id and new to the table, with
    every other job and the cache untouched; or it throws, which happens
    exactly when a job of that store created in the same millisecond is on
    record, and then nothing is inserted. *)
Theorem createExportJob_inserts (d : Database) (storeName : string) (idTime startTime : Date) :
  let new_id := "export_" +:+ storeName +:+ "_" +:+ pretty (epochMs idTime) in
  match createExportJob d storeName idTime startTime with
  | Ok (job, d') =>
      getExportJob d new_id = None
      /\ j_id job = new_id
      /\ getExportJob d' new_id = Some job
      /\ j_storeName job = storeName
      /\ j_status job = pending
      /\ j_totalCustomers job = 0
      /\ j_processedCustomers job = 0
      /\ j_lastCursor job = None
      /\ (forall other, other <> new_id -> getExportJob d' other = getExportJob d other)
      /\ customers d' = customers d
  | Throw _ => is_Some (getExportJob d new_id)
  end.
Proof.
  cbn zeta. unfold createExportJob. cbn zeta. cbn [j_id].
  destruct (getExportJob d _) as [j|] eqn:Hold; [by eexists|].
  split_and!; try done.
  - unfold getExportJob in *. cbn [export_jobs with_export_jobs].
    rewrite find_job_app, Hold. cbn. by rewrite String.eqb_refl.
  - intros other Hother. unfold getExportJob. cbn [export_jobs with_export_jobs].
    rewrite find_job_app. destruct (List.find _ (export_jobs d)); [done|].
    cbn. destruct (String.eqb_spec ("export_" +:+ storeName +:+ "_" +:+ pretty (epochMs idTime)) other);
      congruence.
Qed.

Lemma updateExportJob_customers d jobId updates :
  customers (updateExportJob d jobId updates) = customers d.
Proof. reflexivity. Qed.

(** X5.  An update addressed to an id that is not on record changes
    nothing, and raises no error. *)
Theorem updateExportJob_missing (d : Database) (jobId : string) (updates : JobUpdates) :
  getExportJob d jobId = None -> updateExportJob d jobId updates = d.
Proof.
  unfold getExportJob, updateExportJob. destruct d as [cs js]. cbn. intros Hnone.
  f_equal. induction js as [|j js IH]; [done|].
  cbn in Hnone. rewrite fmap_cons.
  destruct (String.eqb (j_id j) jobId); [done|]. f_equal. by apply IH.
Qed.

Lemma updateExportJob_missing_witness :
  updateExportJob {| customers := []; export_jobs := [failed_job] |} "export_evisu-hk_1"
    {| u_status := Some completed; u_totalCustomers := None; u_processedCustomers := None;
       u_completedAt := None; u_error := None; u_csvFilePath := None; u_lastCursor := None |}
  = {| customers := []; export_jobs := [failed_job] |}.
Proof. apply updateExportJob_missing. reflexivity. Defined.

(** X6.  Whatever an update carries, a job keeps its id, store and start
    time, no job appears or disappears, the cache is untouched, a job of
    another id is left as it is, and a column among [completed_at], [error],
    [csv_file_path] and [last_cursor] that holds a value is never emptied. *)
Theorem updateExportJob_keeps (d : Database) (jobId : string) (updates : JobUpdates)
    (job : string) (j : ExportJob) :
  getExportJob d job = Some j ->
  exists j',
    getExportJob (updateExportJob d jobId updates) job = Some j'
    /\ j_id j' = j_id j /\ j_storeName j' = j_storeName j /\ j_startedAt j' = j_startedAt j
    /\ (is_Some (j_completedAt j) -> is_Some (j_completedAt j'))
    /\ (is_Some (j_error j) -> is_Some (j_error j'))
    /\ (is_Some (j_csvFilePath j) -> is_Some (j_csvFilePath j'))
    /\ (is_Some (j_lastCursor j) -> is_Some (j_lastCursor j'))
    /\ (job <> jobId -> j' = j)
    /\ length (export_jobs (updateExportJob d jobId updates)) = length (export_jobs d)
    /\ customers (updateExportJob d jobId updates) = customers d.
Proof.
  intros Hj. rewrite getExportJob_update, Hj. cbn [fmap option_fmap option_map].
  pose proof (getExportJob_id _ _ _ Hj) as Hid.
  replace (String.eqb (j_id j) jobId) with (String.eqb job jobId) by (by rewrite Hid).
  assert (forall u old, is_Some old -> is_Some (set_if_truthy u old)) as Hkeep.
  { intros [s|] old Hold; cbn; [|done]. by destruct (truthy s). }
  destruct (String.eqb job jobId) eqn:Heq.
  - eexists. split; [done|]. cbn. split_and!; try done; try apply Hkeep.
    + destruct (u_lastCursor updates); [by eexists | done].
    + by apply String.eqb_eq in Heq.
    + unfold updateExportJob. cbn. by rewrite length_fmap.
  - exists j. split_and!; try done.
    unfold updateExportJob. cbn. by rewrite length_fmap.
Qed.

Lemma updateExportJob_keeps_witness :
  exists j',
    getExportJob
      (updateExportJob {| customers := []; export_jobs := [failed_job] |}
         "export_evisu-us_1763017680000"
         {| u_status := Some completed; u_totalCustomers := Some 520;
            u_processedCustomers := None; u_completedAt := None; u_error := Some "";
            u_csvFilePath := None; u_lastCursor := None |})
      "export_evisu-us_1763017680000" = Some j'
    /\ is_Some (j_error j').
Proof.
  destruct (updateExportJob_keeps {| customers := []; export_jobs := [failed_job] |}
              "export_evisu-us_1763017680000"
              {| u_status := Some completed; u_totalCustomers := Some 520;
                 u_processedCustomers := None; u_completedAt := None; u_error := Some "";
                 u_csvFilePath := None; u_lastCursor := None |}
              "export_evisu-us_1763017680000" failed_job eq_refl)
    as (j' & Hj' & _ & _ & _ & _ & Herr & _).
  exists j'. split; [exact Hj' | apply Herr; by eexists].
Defined.

Lemma apply_updates_twice u j : apply_updates u (apply_updates u j) = apply_updates u j.
Proof.
  unfold apply_updates, set_if_truthy, set_if_defined. destruct u as [s t p c e f l].
  cbn. f_equal.
  - by destruct s.
  - by destruct t.
  - by destruct p.
  - destruct c as [x|]; [|done]. by destruct (truthy x).
  - destruct e as [x|]; [|done]. by destruct (truthy x).
  - destruct f as [x|]; [|done]. by destruct (truthy x).
  - by destruct l.
Qed.

(** X29.  Updates of the job table can be repeated and reordered: the same
    update applied twice to a job leaves what one application leaves, and
    updates addressed to two different ids give the same table in either
    order. *)
Theorem updateExportJob_repeat_reorder (d : Database) (id1 id2 : string)
    (u1 u2 : JobUpdates) :
  updateExportJob (updateExportJob d id1 u1) id1 u1 = updateExportJob d id1 u1
  /\ (id1 <> id2 ->
      updateExportJob (updateExportJob d id1 u1) id2 u2
      = updateExportJob (updateExportJob d id2 u2) id1 u1).
Proof.
  unfold updateExportJob. cbn [export_jobs customers with_export_jobs]. split.
  - f_equal. rewrite <- list_fmap_compose. apply list_fmap_ext. intros i j _. cbn.
    destruct (String.eqb (j_id j) id1) eqn:Heq; cbn [apply_updates j_id]; rewrite Heq;
      [apply apply_updates_twice | done].
  - intros Hne. f_equal. rewrite <- !list_fmap_compose. apply list_fmap_ext. intros i j _.
    cbn. destruct (String.eqb_spec (j_id j) id1) as [H1 | H1];
      destruct (String.eqb_spec (j_id j) id2) as [H2 | H2]; cbn [apply_updates j_id].
    + congruence.
    + by destruct (String.eqb_spec (j_id j) id1); destruct (String.eqb_spec (j_id j) id2).
    + by destruct (String.eqb_spec (j_id j) id1); destruct (String.eqb_spec (j_id j) id2).
    + by destruct (String.eqb_spec (j_id j) id1); destruct (String.eqb_spec (j_id j) id2).
Qed.

(** [sql_limit] cuts a list in what it keeps and what it leaves out. *)
Lemma sql_limit_split {A} (n : Z) (l : list A) :
  exists rest,
    l = sql_limit n l ++ rest
    /\ length (sql_limit n l)
       = (if n <? 0 then length l else Nat.min (Z.to_nat n) (length l)).
Proof.
  unfold sql_limit. destruct (n <? 0).
  - exists []. by rewrite app_nil_r.
  - exists (drop (Z.to_nat n) l). split; [by rewrite take_drop | apply length_take].
Qed.

(** X7.  [getExportJobsByStore] lists jobs of the store only, latest start
    first; with a bound of zero or more it lists that many, or all when there
    are fewer, with a negative bound it lists all; and no job of the store that
    it leaves out started later than one it lists. *)
Theorem getExportJobsByStore_newest_first (d : Database) (storeName : string) (limit : Z) :
  let mine := filter (fun j => j_storeName j = storeName) (export_jobs d) in
  let listed := getExportJobsByStore d storeName limit in
  (forall j, j ∈ listed -> j ∈ export_jobs d /\ j_storeName j = storeName)
  /\ StronglySorted (desc j_startedAt) listed
  /\ length listed
     = (if limit <? 0 then length mine else Nat.min (Z.to_nat limit) (length mine))
  /\ exists left_out,
       listed ++ left_out ≡ₚ mine
       /\ forall j j', j ∈ listed -> j' ∈ left_out ->
            String.le (j_startedAt j') (j_startedAt j).
Proof.
  cbn zeta. unfold getExportJobsByStore.
  set (mine := filter (fun j => j_storeName j = storeName) (export_jobs d)).
  destruct (sql_limit_split limit (order_by_desc j_startedAt mine)) as (rest & Hsplit & Hlen).
  pose proof (order_by_desc_sorted j_startedAt mine) as Hsorted.
  rewrite Hsplit in Hsorted. apply StronglySorted_app in Hsorted as (Hcross & Hl & _).
  pose proof (order_by_desc_Permutation j_startedAt mine) as Hperm.
  rewrite Hsplit in Hperm.
  split_and!.
  - intros j Hj.
    assert (j ∈ mine) as Hmine by (rewrite <- Hperm; apply elem_of_app; by left).
    subst mine. apply list_elem_of_filter in Hmine. tauto.
  - done.
  - rewrite Hlen. by rewrite (Permutation_length (order_by_desc_Permutation _ _)).
  - exists rest. split; [done|]. intros j j' Hj Hj'. by apply (Hcross j j').
Qed.

(** X8.  For a non-empty store name, [getLatestExportJob] returns a job of
    the store that started no earlier than any other job of the store, and
    returns nothing exactly when the store has no job on record. *)
Theorem getLatestExportJob_latest (d : Database) (storeName : string) :
  truthy storeName = true ->
  match getLatestExportJob d (Some storeName) with
  | Some j =>
      j ∈ export_jobs d
      /\ j_storeName j = storeName
      /\ forall j', j' ∈ export_jobs d -> j_storeName j' = storeName ->
           String.le (j_startedAt j') (j_startedAt j)
  | None => forall j', j' ∈ export_jobs d -> j_storeName j' <> storeName
  end.
Proof.
  intros Hs. unfold getLatestExportJob, getExportJobsByStore. cbn [falsy_opt or_else].
  rewrite Hs. cbn [negb].
  set (mine := filter (fun j => j_storeName j = storeName) (export_jobs d)).
  pose proof (order_by_desc_sorted j_startedAt mine) as Hsorted.
  pose proof (order_by_desc_Permutation j_startedAt mine) as Hperm.
  destruct (order_by_desc j_startedAt mine) as [|j l] eqn:Hl.
  - cbn. intros j' Hj' Hst.
    assert (j' ∈ mine) as Hin by (subst mine; by apply list_elem_of_filter).
    rewrite <- Hperm in Hin. by apply elem_of_nil in Hin.
  - cbn.
    assert (j ∈ mine) as Hj by (rewrite <- Hperm; apply list_elem_of_here).
    subst mine. apply list_elem_of_filter in Hj as [Hst Hj]. split_and!; [done | done |].
    intros j' Hj' Hst'.
    assert (j' ∈ j :: l) as Hin by (rewrite Hperm; by apply list_elem_of_filter).
    apply StronglySorted_inv in Hsorted as [_ Hall].
    apply elem_of_cons in Hin as [-> | Hin]; [done|].
    rewrite Forall_forall in Hall. by apply Hall.
Qed.

Lemma getLatestExportJob_latest_witness :
  j_storeName failed_job = "evisu-us".
Proof.
  apply (getLatestExportJob_latest {| customers := []; export_jobs := [failed_job] |}
           "evisu-us" eq_refl).
Defined.

(** ** A run of [fetchAndSaveCustomers] *)

Lemma getExportJob_update_same d jobId updates j :
  getExportJob d jobId = Some j ->
  getExportJob (updateExportJob d jobId updates) jobId = Some (apply_updates updates j).
Proof.
  intros Hj. rewrite getExportJob_update, Hj. cbn.
  by rewrite (getExportJob_id _ _ _ Hj), String.eqb_refl.
Qed.

Lemma getExportJob_update_other d jobId updates other :
  other <> jobId ->
  getExportJob (updateExportJob d jobId updates) other = getExportJob d other.
Proof.
  intros Hne. rewrite getExportJob_update.
  destruct (getExportJob d other) as [j|] eqn:Hj; [|done]. cbn.
  rewrite (getExportJob_id _ _ _ Hj).
  by destruct (String.eqb_spec other jobId).
Qed.

Lemma saveCustomers_ids_kept d storeName cs t x :
  x ∈ row_id <$> customers d -> x ∈ row_id <$> customers (saveCustomers d storeName cs t).
Proof.
  intros Hx. unfold saveCustomers. cbn [customers with_customers].
  destruct (decide (x ∈ c_id <$> cs)) as [Hin | Hnin].
  - apply list_elem_of_fmap in Hin as (c & -> & Hc).
    destruct (insertMany_covers storeName (toISOString t) cs (customers d) c Hc)
      as (r & Hr & <-).
    by apply list_elem_of_fmap_2.
  - apply list_elem_of_fmap in Hx as (r & -> & Hr).
    apply list_elem_of_fmap_2. rewrite insertMany_split. apply elem_of_app. left.
    by apply list_elem_of_filter.
Qed.

(** After the loop, the job of the run is the job it was, except for its
    count of processed customers, which is the running total once a page with
    customers has been saved; the running total never falls. *)
Lemma fetch_loop_job w shopify storeName job fuel :
  forall cursor total st j,
    getExportJob (db st) job = Some j ->
    exists t,
      total <= t
      /\ getExportJob
           (db (loop_state (fetch_loop w shopify storeName job fuel cursor total st))) job
         = Some (if t =? total then j else with_processed j t)
      /\ forall t' st',
           fetch_loop w shopify storeName job fuel cursor total st = LoopDone t' st' -> t' = t.
Proof.
  induction fuel as [|fuel IH]; intros cursor total st j Hj.
  { exists total. rewrite Z.eqb_refl. split_and!; [lia | done | done]. }
  cbn [fetch_loop].
  destruct (shopify CUSTOMERS_PER_REQUEST cursor) as [msg|errors| |nodes more next];
    try (exists total; rewrite Z.eqb_refl; split_and!; [lia | done | done]).
  destruct nodes as [|c nodes].
  - destruct more; [by apply IH|].
    exists total. rewrite Z.eqb_refl. split_and!; [lia | done | by intros t' st' [= <- _]].
  - set (total' := total + Z.of_nat (length (c :: nodes))).
    assert (total < total') as Hlt by (subst total'; cbn [length]; lia).
    set (st1 := with_db _ _).
    assert (getExportJob (db st1) job = Some (with_processed j total')) as Hj1.
    { subst st1. cbn [db with_db]. by erewrite getExportJob_update_same. }
    destruct more.
    + destruct (IH next total' st1 _ Hj1) as (t & Hle & Hjob & Hdone).
      exists t. split_and!; [lia | | done].
      rewrite Hjob. destruct (Z.eqb_spec t total') as [-> | Hne].
      * by destruct (Z.eqb_spec total' total); [lia|].
      * by destruct (Z.eqb_spec t total); [lia|].
    + exists total'. split_and!; [lia | | by intros t' st' [= <- _]].
      cbn [loop_state]. rewrite Hj1. by destruct (Z.eqb_spec total' total); [lia|].
Qed.

(** The loop leaves alone the jobs of other ids and the files, and keeps
    every id that the cache holds. *)
Lemma fetch_loop_leaves_alone w shopify storeName job fuel :
  forall cursor total st,
    let st' := loop_state (fetch_loop w shopify storeName job fuel cursor total st) in
    files st' = files st
    /\ (forall other, other <> job -> getExportJob (db st') other = getExportJob (db st) other)
    /\ (forall x, x ∈ row_id <$> customers (db st) -> x ∈ row_id <$> customers (db st'))
    /\ (ticks st <= ticks st')%nat.
Proof.
  induction fuel as [|fuel IH]; intros cursor total st; [by cbn|].
  cbn zeta. cbn [fetch_loop].
  destruct (shopify CUSTOMERS_PER_REQUEST cursor) as [msg|errors| |nodes more next];
    try (by cbn).
  destruct nodes as [|c nodes].
  - destruct more; [|by cbn]. apply (IH next total (sent cursor st)).
  - set (st1 := with_db _ _).
    assert (files st1 = files st
            /\ (forall other, other <> job ->
                  getExportJob (db st1) other = getExportJob (db st) other)
            /\ (forall x, x ∈ row_id <$> customers (db st) ->
                  x ∈ row_id <$> customers (db st1))
            /\ (ticks st <= ticks st1)%nat) as (Hf & Ho & Hi & Ht).
    { subst st1. cbn [db files ticks with_db tick sent]. split_and!; [done | | | lia].
      - intros other Hne. by rewrite getExportJob_update_other.
      - intros x Hx. rewrite updateExportJob_customers. by apply saveCustomers_ids_kept. }
    destruct more; [|by cbn].
    destruct (IH next (total + Z.of_nat (length (c :: nodes))) st1) as (Hf' & Ho' & Hi' & Ht').
    split_and!.
    + by rewrite Hf'.
    + intros other Hne. by rewrite Ho', Ho.
    + intros x Hx. by apply Hi', Hi.
    + lia.
Qed.

Lemma fresh_run_unfold w fuel storeName st shopify :
  createShopifyClient (env w) (remote w) storeName = Ok shopify ->
  fetchAndSaveCustomers w fuel storeName None st
  = match newExportJob w storeName st with
    | Ok (job, st0) => run_job w shopify storeName job fuel st0
    | Throw msg => Threw msg (tick (tick st))
    end.
Proof.
  intros Hc. unfold fetchAndSaveCustomers. rewrite Hc. cbn [falsy_opt].
  by destruct (newExportJob w storeName st) as [[job st0]|msg].
Qed.

Lemma existing_run_unfold w fuel storeName st shopify job j :
  createShopifyClient (env w) (remote w) storeName = Ok shopify ->
  truthy job = true ->
  getExportJob (db st) job = Some j ->
  fetchAndSaveCustomers w fuel storeName (Some job) st
  = run_job w shopify storeName job fuel st.
Proof.
  intros Hc Ht Hj. unfold fetchAndSaveCustomers. rewrite Hc. cbn [falsy_opt or_else].
  rewrite Ht. cbn [negb]. rewrite Hj, (getExportJob_id _ _ _ Hj), Ht. reflexivity.
Qed.

Lemma newExportJob_cases w storeName st :
  match getExportJob (db st) (new_job_id w storeName st) with
  | Some _ => exists msg, newExportJob w storeName st = Throw msg
  | None =>
      newExportJob w storeName st = Ok (new_job_id w storeName st, with_new_job w storeName st)
      /\ getExportJob (db (with_new_job w storeName st)) (new_job_id w storeName st)
         = Some (new_job w storeName st)
  end.
Proof.
  unfold newExportJob, createExportJob. cbn zeta. cbn [j_id].
  fold (new_job_id w storeName st).
  destruct (getExportJob (db st) (new_job_id w storeName st)) eqn:Hold; [by eexists|].
  split; [done|]. unfold with_new_job, getExportJob in *. cbn [db with_db export_jobs with_export_jobs].
  rewrite find_job_app, Hold. cbn. by rewrite String.eqb_refl.
Qed.

Lemma truthy_app_r (s1 s2 : string) : truthy s2 = true -> truthy (s1 +:+ s2) = true.
Proof. destruct s1; [done | reflexivity]. Qed.

Lemma truthy_toISOString d : truthy (toISOString d) = true.
Proof. unfold toISOString. by apply truthy_app_r. Qed.

(** A loop that throws does so with the message of the response to its
    last request. *)
Lemma fetch_loop_threw w shopify storeName job fuel :
  forall cursor total st msg st',
    fetch_loop w shopify storeName job fuel cursor total st = LoopThrew msg st' ->
    exists c earlier,
      requests st' = c :: earlier /\ thrown_by (shopify CUSTOMERS_PER_REQUEST c) msg.
Proof.
  induction fuel as [|fuel IH]; intros cursor total st msg st'; [done|].
  cbn [fetch_loop].
  destruct (shopify CUSTOMERS_PER_REQUEST cursor) as [m|errors| |nodes more next] eqn:Hr.
  - intros [= <- <-]. exists cursor, (requests st). by rewrite Hr.
  - intros [= <- <-]. exists cursor, (requests st). by rewrite Hr.
  - intros [= <- <-]. exists cursor, (requests st). by rewrite Hr.
  - destruct nodes as [|c nodes]; (destruct more; [apply IH | done]).
Qed.

Local Ltac job_fields :=
  unfold apply_updates, set_if_truthy, set_if_defined, completed_update, failed_update,
    in_progress_update, with_processed;
  cbn [u_status u_totalCustomers u_processedCustomers u_completedAt u_error u_csvFilePath
       u_lastCursor j_id j_storeName j_status j_totalCustomers j_processedCustomers
       j_startedAt j_completedAt j_error j_csvFilePath j_lastCursor].

(** What a run leaves of the job it ran for. *)
Lemma run_job_record w shopify storeName job fuel st j :
  getExportJob (db st) job = Some j ->
  match run_job w shopify storeName job fuel st with
  | Returned total job' st' =>
      job' = job /\ 0 <= total
      /\ getExportJob (db st') job
         = Some {| j_id := j_id j;
                   j_storeName := j_storeName j;
                   j_status := completed;
                   j_totalCustomers := total;
                   j_processedCustomers :=
                     if total =? 0 then j_processedCustomers j else total;
                   j_startedAt := j_startedAt j;
                   j_completedAt := Some (last_reading w st');
                   j_error := j_error j;
                   j_csvFilePath := j_csvFilePath j;
                   j_lastCursor := j_lastCursor j |}
  | Threw msg st' =>
      exists processed c earlier,
        0 <= processed
        /\ requests st' = c :: earlier
        /\ thrown_by (shopify CUSTOMERS_PER_REQUEST c) msg
        /\ getExportJob (db st') job
           = Some {| j_id := j_id j;
                     j_storeName := j_storeName j;
                     j_status := failed;
                     j_totalCustomers := j_totalCustomers j;
                     j_processedCustomers :=
                       if processed =? 0 then j_processedCustomers j else processed;
                     j_startedAt := j_startedAt j;
                     j_completedAt := Some (last_reading w st');
                     j_error := if truthy msg then Some msg else j_error j;
                     j_csvFilePath := j_csvFilePath j;
                     j_lastCursor := j_lastCursor j |}
  | OutOfFuel st' =>
      exists processed,
        0 <= processed
        /\ getExportJob (db st') job
           = Some {| j_id := j_id j;
                     j_storeName := j_storeName j;
                     j_status := in_progress;
                     j_totalCustomers := j_totalCustomers j;
                     j_processedCustomers :=
                       if processed =? 0 then j_processedCustomers j else processed;
                     j_startedAt := j_startedAt j;
                     j_completedAt := j_completedAt j;
                     j_error := j_error j;
                     j_csvFilePath := j_csvFilePath j;
                     j_lastCursor := j_lastCursor j |}
  end.
Proof.
  intros Hj. unfold run_job.
  set (st1 := with_db st (updateExportJob (db st) job in_progress_update)).
  assert (getExportJob (db st1) job = Some (apply_updates in_progress_update j)) as Hj1
    by (subst st1; cbn [db with_db]; by apply getExportJob_update_same).
  destruct (fetch_loop_job w shopify storeName job fuel None 0 st1 _ Hj1)
    as (t & Ht & Hjob & Hdone).
  pose proof (fetch_loop_threw w shopify storeName job fuel None 0 st1) as Hthrew.
  destruct (fetch_loop w shopify storeName job fuel None 0 st1) as [t' stl|msg stl|stl].
  - rewrite (Hdone t' stl eq_refl). cbn [loop_state] in Hjob.
    split_and!; [done | done |].
    cbn [db with_db]. erewrite getExportJob_update_same by exact Hjob.
    unfold last_reading. cbn [ticks with_db tick Nat.pred]. unfold now.
    destruct (t =? 0); job_fields; by rewrite truthy_toISOString.
  - destruct (Hthrew msg stl eq_refl) as (c & earlier & Hreq & Hmsg).
    exists t, c, earlier. cbn [loop_state] in Hjob. split_and!; [done | done | done |].
    cbn [db with_db]. erewrite getExportJob_update_same by exact Hjob.
    unfold last_reading. cbn [ticks with_db tick Nat.pred]. unfold now.
    destruct (t =? 0); job_fields; rewrite truthy_toISOString; by destruct (truthy msg).
  - exists t. cbn [loop_state] in Hjob. split; [done|]. rewrite Hjob.
    by destruct (t =? 0); job_fields.
Qed.

(** X9.  A run started without a job id that returns has created its job
    under the id [export_<store>_<ms>], which no job had before, and leaves it
    completed: filed under the store, both counters equal to the total
    returned, which is not negative, the start and completion times read from
    the clock, and neither error, CSV path nor cursor. *)
Theorem fresh_run_completed (w : World) (fuel : nat) (storeName : string)
    (st st' : State) (total : Z) (job : string) :
  fetchAndSaveCustomers w fuel storeName None st = Returned total job st' ->
  job = new_job_id w storeName st
  /\ getExportJob (db st) job = None
  /\ 0 <= total
  /\ getExportJob (db st') job
     = Some {| j_id := job;
               j_storeName := storeName;
               j_status := completed;
               j_totalCustomers := total;
               j_processedCustomers := total;
               j_startedAt := toISOString (now w (tick st));
               j_completedAt := Some (last_reading w st');
               j_error := None;
               j_csvFilePath := None;
               j_lastCursor := None |}.
Proof.
  intros Hrun.
  destruct (createShopifyClient (env w) (remote w) storeName) as [shopify|msg] eqn:Hc;
    [|by unfold fetchAndSaveCustomers in Hrun; rewrite Hc in Hrun].
  rewrite (fresh_run_unfold _ _ _ _ _ Hc) in Hrun.
  pose proof (newExportJob_cases w storeName st) as Hnew.
  destruct (getExportJob (db st) (new_job_id w storeName st)) as [j0|] eqn:Hold.
  { destruct Hnew as [msg Hnew]. by rewrite Hnew in Hrun. }
  destruct Hnew as [Hnew Hj]. rewrite Hnew in Hrun.
  pose proof (run_job_record w shopify storeName _ fuel _ _ Hj) as Hrec.
  rewrite Hrun in Hrec. destruct Hrec as (-> & Hpos & Hrec).
  split_and!; [done | done | done |].
  rewrite Hrec. cbn [new_job j_id j_storeName j_processedCustomers j_startedAt j_error
                     j_csvFilePath j_lastCursor].
  by destruct (Z.eqb_spec total 0) as [-> |].
Qed.

Lemma fresh_run_completed_witness :
  let w := sample_world upstream_3 in
  let st := state (server_of empty_db) in
  let job := "export_evisu-us_1763017685000" in
  getExportJob (db (outcome_state (fetchAndSaveCustomers w 10 "evisu-us" None st))) job
  = Some {| j_id := job;
            j_storeName := "evisu-us";
            j_status := completed;
            j_totalCustomers := 3;
            j_processedCustomers := 3;
            j_startedAt := toISOString (now w (tick st));
            j_completedAt :=
              Some (last_reading w (outcome_state (fetchAndSaveCustomers w 10 "evisu-us" None st)));
            j_error := None;
            j_csvFilePath := None;
            j_lastCursor := None |}.
Proof.
  intros w st job.
  apply (fresh_run_completed w 10 "evisu-us" st _ 3 job).
  vm_compute. reflexivity.
Defined.

(** X10.  A run started without a job id that throws after its job was
    created leaves that job failed: the message thrown is the one that the
    response to the last request sent gives rise to, it is what the [error]
    column holds unless it is empty, the completion time is stamped, and
    [total_customers] is still zero. *)
Theorem fresh_run_failed (w : World) (fuel : nat) (storeName : string) (shopify : Api)
    (st st' : State) (msg : string) :
  createShopifyClient (env w) (remote w) storeName = Ok shopify ->
  getExportJob (db st) (new_job_id w storeName st) = None ->
  fetchAndSaveCustomers w fuel storeName None st = Threw msg st' ->
  exists processed c earlier,
    0 <= processed
    /\ requests st' = c :: earlier
    /\ thrown_by (shopify CUSTOMERS_PER_REQUEST c) msg
    /\ getExportJob (db st') (new_job_id w storeName st)
       = Some {| j_id := new_job_id w storeName st;
                 j_storeName := storeName;
                 j_status := failed;
                 j_totalCustomers := 0;
                 j_processedCustomers := processed;
                 j_startedAt := toISOString (now w (tick st));
                 j_completedAt := Some (last_reading w st');
                 j_error := if truthy msg then Some msg else None;
                 j_csvFilePath := None;
                 j_lastCursor := None |}.
Proof.
  intros Hc Hold Hrun.
  rewrite (fresh_run_unfold _ _ _ _ _ Hc) in Hrun.
  pose proof (newExportJob_cases w storeName st) as Hnew. rewrite Hold in Hnew.
  destruct Hnew as [Hnew Hj]. rewrite Hnew in Hrun.
  pose proof (run_job_record w shopify storeName _ fuel _ _ Hj) as Hrec.
  rewrite Hrun in Hrec. destruct Hrec as (p & c & earlier & Hpos & Hreq & Hmsg & Hrec).
  exists p, c, earlier. split_and!; [done | done | done |].
  rewrite Hrec. cbn [new_job j_id j_storeName j_totalCustomers j_processedCustomers
                     j_startedAt j_error j_csvFilePath j_lastCursor].
  by destruct (Z.eqb_spec p 0) as [-> |].
Qed.

(** X11.  A call for a job on record either finds no client for the store
    and throws at once, leaving everything as it is, or runs for that job and,
    however the run ends, rewrites of the job only [status], the two counters,
    [completed_at] and [error]: a run that returns leaves the job completed
    with [total_customers] the total returned; one that throws leaves it
    failed with the message thrown; in both cases [processed_customers] is the
    number of customers this run has saved, or what it was when the run saved
    none, and the error text, the CSV path and the cursor of an earlier run
    stay on the record. *)
Theorem rerun_record (w : World) (fuel : nat) (storeName : string)
    (st : State) (job : string) (j : ExportJob) :
  truthy job = true ->
  getExportJob (db st) job = Some j ->
  match createShopifyClient (env w) (remote w) storeName with
  | Throw msg => fetchAndSaveCustomers w fuel storeName (Some job) st = Threw msg st
  | Ok shopify =>
      match fetchAndSaveCustomers w fuel storeName (Some job) st with
      | Returned total job' st' =>
          job' = job /\ 0 <= total
          /\ getExportJob (db st') job
             = Some {| j_id := j_id j;
                       j_storeName := j_storeName j;
                       j_status := completed;
                       j_totalCustomers := total;
                       j_processedCustomers :=
                         if total =? 0 then j_processedCustomers j else total;
                       j_startedAt := j_startedAt j;
                       j_completedAt := Some (last_reading w st');
                       j_error := j_error j;
                       j_csvFilePath := j_csvFilePath j;
                       j_lastCursor := j_lastCursor j |}
      | Threw msg st' =>
          exists processed c earlier,
            0 <= processed
            /\ requests st' = c :: earlier
            /\ thrown_by (shopify CUSTOMERS_PER_REQUEST c) msg
            /\ getExportJob (db st') job
               = Some {| j_id := j_id j;
                         j_storeName := j_storeName j;
                         j_status := failed;
                         j_totalCustomers := j_totalCustomers j;
                         j_processedCustomers :=
                           if processed =? 0 then j_processedCustomers j else processed;
                         j_startedAt := j_startedAt j;
                         j_completedAt := Some (last_reading w st');
                         j_error := if truthy msg then Some msg else j_error j;
                         j_csvFilePath := j_csvFilePath j;
                         j_lastCursor := j_lastCursor j |}
      | OutOfFuel st' =>
          exists processed,
            0 <= processed
            /\ getExportJob (db st') job
               = Some {| j_id := j_id j;
                         j_storeName := j_storeName j;
                         j_status := in_progress;
                         j_totalCustomers := j_totalCustomers j;
                         j_processedCustomers :=
                           if processed =? 0 then j_processedCustomers j else processed;
                         j_startedAt := j_startedAt j;
                         j_completedAt := j_completedAt j;
                         j_error := j_error j;
                         j_csvFilePath := j_csvFilePath j;
                         j_lastCursor := j_lastCursor j |}
      end
  end.
Proof.
  intros Ht Hj.
  destruct (createShopifyClient (env w) (remote w) storeName) as [shopify|msg] eqn:Hc.
  - rewrite (existing_run_unfold _ _ _ _ _ _ _ Hc Ht Hj). by apply run_job_record.
  - unfold fetchAndSaveCustomers. by rewrite Hc.
Qed.

Lemma rerun_record_witness :
  let w := sample_world upstream_3 in
  let st := state (server_of {| customers := []; export_jobs := [failed_job] |}) in
  let job := "export_evisu-us_1763017680000" in
  (j_error <$> getExportJob (db (outcome_state (fetchAndSaveCustomers w 10 "evisu-us" (Some job) st))) job
   = Some (Some "Invalid response from Shopify API")
   /\ j_status <$> getExportJob (db (outcome_state (fetchAndSaveCustomers w 10 "evisu-us" (Some job) st))) job
      = Some completed)
  /\ getExportJob (db (outcome_state (fetchAndSaveCustomers w 10 "evisu-jp" (Some job) st))) job
     = Some failed_job.
Proof.
  intros w st job. split.
  - pose proof (rerun_record w 10 "evisu-us" st job failed_job eq_refl eq_refl) as H.
    change (createShopifyClient (env w) (remote w) "evisu-us") with (Ok upstream_3) in H.
    cbv beta iota in H.
    destruct (fetchAndSaveCustomers w 10 "evisu-us" (Some job) st)
      as [total job' st'|msg st'|st'] eqn:Hrun; [|by vm_compute in Hrun..].
    destruct H as (_ & _ & H). cbn [outcome_state]. by rewrite H.
  - pose proof (rerun_record w 10 "evisu-jp" st job failed_job eq_refl eq_refl) as H.
    destruct (createShopifyClient (env w) (remote w) "evisu-jp") as [shopify|msg] eqn:Hc;
      [by vm_compute in Hc|].
    by rewrite H.
Defined.

Lemma fresh_run_failed_witness :
  let w := sample_world rejecting in
  let st := state (server_of empty_db) in
  exists processed c earlier,
    0 <= processed
    /\ requests (outcome_state (fetchAndSaveCustomers w 10 "evisu-us" None st)) = c :: earlier
    /\ thrown_by (rejecting CUSTOMERS_PER_REQUEST c) "fetch failed"
    /\ getExportJob (db (outcome_state (fetchAndSaveCustomers w 10 "evisu-us" None st)))
         (new_job_id w "evisu-us" st)
       = Some {| j_id := new_job_id w "evisu-us" st;
                 j_storeName := "evisu-us";
                 j_status := failed;
                 j_totalCustomers := 0;
                 j_processedCustomers := processed;
                 j_startedAt := toISOString (now w (tick st));
                 j_completedAt :=
                   Some (last_reading w (outcome_state (fetchAndSaveCustomers w 10 "evisu-us" None st)));
                 j_error := Some "fetch failed";
                 j_csvFilePath := None;
                 j_lastCursor := None |}.
Proof.
  intros w st.
  apply (fresh_run_failed w 10 "evisu-us" rejecting st _ "fetch failed");
    [reflexivity | reflexivity | vm_compute; reflexivity].
Defined.

(** The ways a run can go: without a client, without a new job, for the job
    named, or for a job of its own. *)
Lemma fetchAndSaveCustomers_cases w fuel storeName jobId st :
  (exists msg, fetchAndSaveCustomers w fuel storeName jobId st = Threw msg st)
  \/ (exists msg, fetchAndSaveCustomers w fuel storeName jobId st = Threw msg (tick (tick st)))
  \/ (exists shopify job,
        jobId = Some job
        /\ fetchAndSaveCustomers w fuel storeName jobId st
           = run_job w shopify storeName job fuel st)
  \/ (exists shopify,
        getExportJob (db st) (new_job_id w storeName st) = None
        /\ fetchAndSaveCustomers w fuel storeName jobId st
           = run_job w shopify storeName (new_job_id w storeName st) fuel
               (with_new_job w storeName st)).
Proof.
  unfold fetchAndSaveCustomers.
  destruct (createShopifyClient (env w) (remote w) storeName) as [shopify|msg];
    [|left; by eexists].
  right.
  assert ((exists msg,
             match newExportJob w storeName st with
             | Ok (job, st0) => run_job w shopify storeName job fuel st0
             | Throw msg => Threw msg (tick (tick st))
             end = Threw msg (tick (tick st)))
          \/ (getExportJob (db st) (new_job_id w storeName st) = None
              /\ match newExportJob w storeName st with
                 | Ok (job, st0) => run_job w shopify storeName job fuel st0
                 | Throw msg => Threw msg (tick (tick st))
                 end
                 = run_job w shopify storeName (new_job_id w storeName st) fuel
                     (with_new_job w storeName st))) as Hnew.
  { pose proof (newExportJob_cases w storeName st) as Hn.
    destruct (getExportJob (db st) (new_job_id w storeName st)).
    - destruct Hn as [msg ->]. left. by eexists.
    - destruct Hn as [-> _]. by right. }
  assert (forall o : Outcome,
            o = match newExportJob w storeName st with
                | Ok (job, st0) => run_job w shopify storeName job fuel st0
                | Throw msg => Threw msg (tick (tick st))
                end ->
            (exists msg, o = Threw msg (tick (tick st)))
            \/ (exists shopify0 job, jobId = Some job /\ o = run_job w shopify0 storeName job fuel st)
            \/ (exists shopify0,
                  getExportJob (db st) (new_job_id w storeName st) = None
                  /\ o = run_job w shopify0 storeName (new_job_id w storeName st) fuel
                           (with_new_job w storeName st))) as Hfresh.
  { intros o ->. destruct Hnew as [[msg Hm] | [Hnone Hr]].
    - left. by exists msg.
    - right. right. by exists shopify. }
  destruct jobId as [job|]; cbn [falsy_opt or_else].
  - destruct (truthy job) eqn:Ht; cbn [negb].
    + destruct (getExportJob (db st) job) as [j|] eqn:Hj.
      * rewrite (getExportJob_id _ _ _ Hj), Ht.
        right. left. exists shopify, job. split; [done|]. reflexivity.
      * apply Hfresh. by destruct (newExportJob w storeName st) as [[e st0]|msg].
    + apply Hfresh. by destruct (newExportJob w storeName st) as [[e st0]|msg].
  - apply Hfresh. by destruct (newExportJob w storeName st) as [[e st0]|msg].
Qed.

Lemma run_job_leaves_alone w shopify storeName job fuel st :
  let st' := outcome_state (run_job w shopify storeName job fuel st) in
  files st' = files st
  /\ (forall other, other <> job -> getExportJob (db st') other = getExportJob (db st) other)
  /\ (forall x, x ∈ row_id <$> customers (db st) -> x ∈ row_id <$> customers (db st'))
  /\ (ticks st <= ticks st')%nat.
Proof.
  cbn zeta. unfold run_job.
  set (st1 := with_db st (updateExportJob (db st) job in_progress_update)).
  destruct (fetch_loop_leaves_alone w shopify storeName job fuel None 0 st1)
    as (Hf & Ho & Hi & Ht).
  assert (forall other, other <> job -> getExportJob (db st1) other = getExportJob (db st) other)
    as Ho1.
  { intros other Hne. subst st1. cbn [db with_db]. by apply getExportJob_update_other. }
  destruct (fetch_loop w shopify storeName job fuel None 0 st1) as [t stl|msg stl|stl];
    cbn [loop_state] in *; cbn [outcome_state files db ticks with_db tick];
    (split_and!;
     [ by rewrite Hf
     | intros other Hne; rewrite ?getExportJob_update_other by done; by rewrite Ho, Ho1
     | intros x Hx; rewrite ?updateExportJob_customers; by apply Hi
     | subst st1; cbn [ticks with_db] in Ht; lia ]).
Qed.

(** X12.  However a run ends, it writes no file, drops no id from the
    cache, and leaves every job as it was except the one it was called for or
    the one it has created. *)
Theorem run_leaves_alone (w : World) (fuel : nat) (storeName : string)
    (jobId : option string) (st : State) :
  let st' := outcome_state (fetchAndSaveCustomers w fuel storeName jobId st) in
  files st' = files st
  /\ (forall x, x ∈ row_id <$> customers (db st) -> x ∈ row_id <$> customers (db st'))
  /\ (forall other,
        Some other <> jobId -> other <> new_job_id w storeName st ->
        getExportJob (db st') other = getExportJob (db st) other).
Proof.
  cbn zeta.
  destruct (fetchAndSaveCustomers_cases w fuel storeName jobId st)
    as [[msg ->] | [[msg ->] | [(shopify & job & -> & ->) | (shopify & Hnone & ->)]]].
  - done.
  - done.
  - destruct (run_job_leaves_alone w shopify storeName job fuel st) as (Hf & Ho & Hi & _).
    split_and!; [done | done |]. intros other Hne _. apply Ho. congruence.
  - destruct (run_job_leaves_alone w shopify storeName (new_job_id w storeName st) fuel
                (with_new_job w storeName st)) as (Hf & Ho & Hi & _).
    split_and!; [done | done |]. intros other _ Hne. rewrite Ho by done.
    unfold with_new_job, getExportJob. cbn [db with_db export_jobs with_export_jobs].
    rewrite find_job_app. destruct (List.find _ (export_jobs (db st))); [done|].
    cbn. by destruct (String.eqb_spec (new_job_id w storeName st) other).
Qed.

(** ** What a complete run leaves in the cache *)

Lemma saveCustomers_cached d storeName cs t c :
  c ∈ cs -> cached_under (saveCustomers d storeName cs t) storeName (c_id c).
Proof.
  intros Hc. unfold saveCustomers, cached_under. cbn [customers with_customers].
  destruct (insertMany_covers storeName (toISOString t) cs (customers d) c Hc) as (r & Hr & Hid).
  exists r. split_and!; [done | done |].
  rewrite (insertMany_batch_rows storeName (toISOString t) cs (customers d) r Hr); [done|].
  rewrite Hid. by apply list_elem_of_fmap_2.
Qed.

Lemma saveCustomers_cached_kept d storeName cs t x :
  cached_under d storeName x -> cached_under (saveCustomers d storeName cs t) storeName x.
Proof.
  intros (r & Hr & Hid & Hs).
  destruct (decide (x ∈ c_id <$> cs)) as [Hin | Hnin].
  - apply list_elem_of_fmap in Hin as (c & -> & Hc). by apply saveCustomers_cached.
  - exists r. split_and!; [|done|done].
    unfold saveCustomers. cbn [customers with_customers].
    rewrite insertMany_split. apply elem_of_app. left.
    apply list_elem_of_filter. by rewrite Hid.
Qed.

(** Against a store that serves [pages], the loop ends after one request
    per page, with every customer served counted and cached under the
    store. *)
Lemma fetch_loop_serves w shopify storeName job pages :
  forall cursor, serves shopify cursor pages ->
  forall fuel total st,
    (length pages <= fuel)%nat ->
    exists st',
      fetch_loop w shopify storeName job fuel cursor total st
      = LoopDone (total + Z.of_nat (length (concat pages))) st'
      /\ length (requests st') = (length pages + length (requests st))%nat
      /\ (forall c, c ∈ concat pages -> cached_under (db st') storeName (c_id c))
      /\ (forall x, cached_under (db st) storeName x -> cached_under (db st') storeName x).
Proof.
  intros cursor Hs.
  induction Hs as [cursor page next Hr | cursor page next pages Hr Hs IH];
    intros fuel total st Hfuel;
    (destruct fuel as [|fuel]; [cbn in Hfuel; lia|]);
    cbn [fetch_loop]; rewrite Hr.
  - destruct page as [|c page].
    + eexists. split; [|split_and!].
      * cbn. by rewrite Z.add_0_r.
      * done.
      * intros c Hc. cbn in Hc. by apply elem_of_nil in Hc.
      * done.
    + eexists. split; [|split_and!].
      * cbn [concat]. by rewrite app_nil_r.
      * done.
      * intros c' Hc'. cbn [concat] in Hc'. rewrite app_nil_r in Hc'.
        cbn [db with_db]. unfold cached_under. rewrite updateExportJob_customers.
        by apply saveCustomers_cached.
      * intros x Hx. cbn [db with_db]. unfold cached_under.
        rewrite updateExportJob_customers. by apply saveCustomers_cached_kept.
  - cbn [length] in Hfuel. destruct page as [|c page].
    + destruct (IH fuel total (sent cursor st) ltac:(lia)) as (st' & Hrun & Hreq & Hin & Hkept).
      exists st'. split_and!; [done | | done | done].
      rewrite Hreq. cbn [requests sent length]. lia.
    + set (st1 := with_db _ _).
      destruct (IH fuel (total + Z.of_nat (length (c :: page))) st1 ltac:(lia))
        as (st' & Hrun & Hreq & Hin & Hkept).
      assert (forall x, cached_under (db st) storeName x -> cached_under (db st1) storeName x)
        as Hkept1.
      { intros x Hx. subst st1. cbn [db with_db]. unfold cached_under.
        rewrite updateExportJob_customers. by apply saveCustomers_cached_kept. }
      exists st'. split_and!.
      * rewrite Hrun. f_equal. cbn [concat]. rewrite length_app. lia.
      * rewrite Hreq. subst st1. cbn [requests sent with_db tick length]. lia.
      * intros c' Hc'. cbn [concat] in Hc'. apply elem_of_app in Hc' as [Hc' | Hc'].
        -- apply Hkept. subst st1. cbn [db with_db]. unfold cached_under.
           rewrite updateExportJob_customers. by apply saveCustomers_cached.
        -- by apply Hin.
      * intros x Hx. by apply Hkept, Hkept1.
Qed.

(** A run without a job id against a store that serves [pages]. *)
Lemma fresh_run_returns w fuel storeName shopify pages st :
  createShopifyClient (env w) (remote w) storeName = Ok shopify ->
  serves shopify None pages ->
  (length pages <= fuel)%nat ->
  getExportJob (db st) (new_job_id w storeName st) = None ->
  exists st',
    fetchAndSaveCustomers w fuel storeName None st
    = Returned (Z.of_nat (length (concat pages))) (new_job_id w storeName st) st'
    /\ length (requests st') = (length pages + length (requests st))%nat
    /\ (forall c, c ∈ concat pages -> cached_under (db st') storeName (c_id c))
    /\ files st' = files st
    /\ getExportJob (db st') (new_job_id w storeName st)
       = Some {| j_id := new_job_id w storeName st;
                 j_storeName := storeName;
                 j_status := completed;
                 j_totalCustomers := Z.of_nat (length (concat pages));
                 j_processedCustomers := Z.of_nat (length (concat pages));
                 j_startedAt := toISOString (now w (tick st));
                 j_completedAt := Some (last_reading w st');
                 j_error := None;
                 j_csvFilePath := None;
                 j_lastCursor := None |}.
Proof.
  intros Hc Hs Hfuel Hold.
  rewrite (fresh_run_unfold _ _ _ _ _ Hc).
  pose proof (newExportJob_cases w storeName st) as Hnew. rewrite Hold in Hnew.
  destruct Hnew as [-> Hj].
  pose proof (run_job_record w shopify storeName _ fuel _ _ Hj) as Hrec.
  pose proof (run_job_leaves_alone w shopify storeName (new_job_id w storeName st) fuel
                (with_new_job w storeName st)) as (Hfiles & _).
  unfold run_job in *.
  destruct (fetch_loop_serves w shopify storeName (new_job_id w storeName st) pages None Hs
              fuel 0
              (with_db (with_new_job w storeName st)
                 (updateExportJob (db (with_new_job w storeName st))
                    (new_job_id w storeName st) in_progress_update)) Hfuel)
    as (st' & Hloop & Hreq & Hin & _).
  rewrite Hloop in *. rewrite Z.add_0_l in *.
  destruct Hrec as (_ & _ & Hrec).
  eexists. split_and!; [done | done | | done |].
  - intros c Hc'. cbn [db with_db]. unfold cached_under. rewrite updateExportJob_customers.
    by apply Hin.
  - rewrite Hrec. cbn [new_job j_id j_storeName j_processedCustomers j_startedAt j_error
                       j_csvFilePath j_lastCursor].
    by destruct (Z.of_nat (length (concat pages)) =? 0) eqn:Hz; [apply Z.eqb_eq in Hz as -> |].
Qed.

(** X13.  Against a store that serves finitely many pages, a run started
    without a job id returns: given one unit of fuel per page and an unused
    job id, it sends one request per page, returns the number of customers
    served as its total, and every customer served is then cached under the
    store. *)
Theorem run_fetches_every_page (w : World) (fuel : nat) (storeName : string)
    (shopify : Api) (pages : list (list CustomerData)) (st : State) :
  createShopifyClient (env w) (remote w) storeName = Ok shopify ->
  serves shopify None pages ->
  (length pages <= fuel)%nat ->
  getExportJob (db st) (new_job_id w storeName st) = None ->
  exists st',
    fetchAndSaveCustomers w fuel storeName None st
    = Returned (Z.of_nat (length (concat pages))) (new_job_id w storeName st) st'
    /\ length (requests st') = (length pages + length (requests st))%nat
    /\ (forall c, c ∈ concat pages -> cached_under (db st') storeName (c_id c)).
Proof.
  intros Hc Hs Hfuel Hold.
  destruct (fresh_run_returns w fuel storeName shopify pages st Hc Hs Hfuel Hold)
    as (st' & Hrun & Hreq & Hin & _).
  by exists st'.
Qed.

Lemma upstream_3_serves : serves upstream_3 None [sample_page 1 3].
Proof. by eapply serves_last. Qed.

Lemma run_fetches_every_page_witness :
  exists st',
    fetchAndSaveCustomers (sample_world upstream_3) 1 "evisu-us" None (state (server_of empty_db))
    = Returned 3 "export_evisu-us_1763017685000" st'
    /\ cached_under (db st') "evisu-us" "gid://shopify/Customer/2".
Proof.
  destruct (run_fetches_every_page (sample_world upstream_3) 1 "evisu-us" upstream_3
              [sample_page 1 3] (state (server_of empty_db))
              eq_refl upstream_3_serves (le_n 1) eq_refl)
    as (st' & Hrun & _ & Hin).
  exists st'. split; [exact Hrun|].
  apply (Hin (sample_customer 2 None)).
  apply list_elem_of_further, list_elem_of_here.
Defined.

(** When the ids served are distinct, the loop leaves the stored rows of
    other ids in place and appends one row per customer served, in the order
    served. *)
Lemma fetch_loop_table w shopify storeName job pages :
  forall cursor, serves shopify cursor pages ->
  forall fuel total st,
    (length pages <= fuel)%nat ->
    NoDup (c_id <$> concat pages) ->
    exists rows,
      customers (db (loop_state (fetch_loop w shopify storeName job fuel cursor total st)))
      = filter (fun r => row_id r ∉ c_id <$> concat pages) (customers (db st)) ++ rows
      /\ key_and_data <$> rows = (fun c => (c_id c, storeName, c)) <$> concat pages.
Proof.
  assert (forall (page : list CustomerData) (t : list CustomerRow) now,
            NoDup (c_id <$> page) ->
            insertMany storeName now page t
            = filter (fun r => row_id r ∉ c_id <$> page) t ++ (customer_row storeName now <$> page))
    as Hsave.
  { intros page t now Hnd. rewrite insertMany_split. f_equal.
    rewrite insertMany_fresh; [done | done |]. intros c _. cbn. apply not_elem_of_nil. }
  assert (forall (page : list CustomerData) now,
            key_and_data <$> (customer_row storeName now <$> page)
            = (fun c => (c_id c, storeName, c)) <$> page) as Hkeys.
  { intros page now. rewrite <- list_fmap_compose. by apply list_fmap_ext. }
  intros cursor Hs.
  induction Hs as [cursor page next Hr | cursor page next pages Hr Hs IH];
    intros fuel total st Hfuel Hnd;
    (destruct fuel as [|fuel]; [cbn in Hfuel; lia|]);
    cbn [fetch_loop]; rewrite Hr.
  - cbn [concat] in *. rewrite app_nil_r in *. destruct page as [|c page].
    + exists []. cbn [loop_state db sent]. split; [|done].
      rewrite app_nil_r. symmetry. apply filter_all. intros r _. apply not_elem_of_nil.
    + eexists. cbn [loop_state db with_db]. rewrite updateExportJob_customers.
      unfold saveCustomers. cbn [customers with_customers db sent tick].
      rewrite Hsave by done. split; [reflexivity | apply Hkeys].
  - cbn [length concat] in *. rewrite fmap_app in Hnd.
    apply NoDup_app in Hnd as (Hnd1 & Hdisj & Hnd2).
    destruct page as [|c page].
    + destruct (IH fuel total (sent cursor st) ltac:(lia) Hnd2) as (rows & Hrows & Hk).
      exists rows. by rewrite Hrows.
    + set (st1 := with_db _ _).
      destruct (IH fuel (total + Z.of_nat (length (c :: page))) st1 ltac:(lia) Hnd2)
        as (rows & Hrows & Hk).
      set (now1 := toISOString (now w (sent cursor st))).
      assert (customers (db st1)
              = filter (fun r => row_id r ∉ c_id <$> (c :: page)) (customers (db st))
                ++ (customer_row storeName now1 <$> (c :: page))) as Hst1.
      { subst st1. cbn [db with_db]. rewrite updateExportJob_customers.
        unfold saveCustomers. cbn [customers with_customers db sent tick].
        by rewrite Hsave. }
      exists ((customer_row storeName now1 <$> (c :: page)) ++ rows). split.
      * rewrite Hrows, Hst1, filter_app, list_filter_filter, <- !app_assoc. f_equal.
        -- apply list_filter_iff. intros r. rewrite fmap_app, not_elem_of_app. tauto.
        -- f_equal. apply filter_all. intros r Hin.
           apply list_elem_of_fmap in Hin as (c' & -> & Hc').
           apply Hdisj. by apply (list_elem_of_fmap_2 c_id).
      * by rewrite !fmap_app, Hkeys, Hk.
Qed.

Lemma key_and_data_store (storeName : string) (rows : list CustomerRow)
    (cs : list CustomerData) :
  key_and_data <$> rows = (fun c => (c_id c, storeName, c)) <$> cs ->
  filter (fun r => row_store_name r = storeName) rows = rows
  /\ row_data <$> rows = cs.
Proof.
  revert cs. induction rows as [|r rows IH]; intros [|c cs] Hk; try done.
  rewrite !fmap_cons in Hk. apply (inj2 cons) in Hk as [Hr Hk].
  destruct (IH cs Hk) as [Hf Hd]. unfold key_and_data in Hr.
  injection Hr as Hid Hst Hdata.
  rewrite filter_cons_True by done. rewrite fmap_cons. by rewrite Hf, Hd, Hdata.
Qed.

(** The table that a complete run without a job id leaves, when the ids
    served are distinct. *)
Lemma fresh_run_table w fuel storeName shopify pages st :
  createShopifyClient (env w) (remote w) storeName = Ok shopify ->
  serves shopify None pages ->
  (length pages <= fuel)%nat ->
  getExportJob (db st) (new_job_id w storeName st) = None ->
  NoDup (c_id <$> concat pages) ->
  exists rows,
    customers (db (outcome_state (fetchAndSaveCustomers w fuel storeName None st)))
    = filter (fun r => row_id r ∉ c_id <$> concat pages) (customers (db st)) ++ rows
    /\ key_and_data <$> rows = (fun c => (c_id c, storeName, c)) <$> concat pages.
Proof.
  intros Hc Hs Hfuel Hold Hnd.
  rewrite (fresh_run_unfold _ _ _ _ _ Hc).
  pose proof (newExportJob_cases w storeName st) as Hnew. rewrite Hold in Hnew.
  destruct Hnew as [-> _]. unfold run_job.
  set (st1 := with_db (with_new_job w storeName st) _).
  destruct (fetch_loop_serves w shopify storeName (new_job_id w storeName st) pages None Hs
              fuel 0 st1 Hfuel) as (st' & Hrun & _).
  destruct (fetch_loop_table w shopify storeName (new_job_id w storeName st) pages None Hs
              fuel 0 st1 Hfuel Hnd) as (rows & Hrows & Hk).
  rewrite Hrun in *. cbn [loop_state] in Hrows.
  cbn [outcome_state db with_db]. exists rows.
  by rewrite updateExportJob_customers, Hrows.
Qed.

(** X14.  When the ids that the store serves are distinct, a complete run
    leaves in the cache the rows it held under other ids, in their order,
    followed by one row per customer served, in the order served and filed
    under the store of the run; the store then counts its remaining rows plus
    the total of the run, and what is read back for the store is, up to order,
    what remained plus what was served. *)
Theorem run_cache_after (w : World) (fuel : nat) (storeName : string)
    (shopify : Api) (pages : list (list CustomerData)) (st : State) :
  createShopifyClient (env w) (remote w) storeName = Ok shopify ->
  serves shopify None pages ->
  (length pages <= fuel)%nat ->
  getExportJob (db st) (new_job_id w storeName st) = None ->
  NoDup (c_id <$> concat pages) ->
  let st' := outcome_state (fetchAndSaveCustomers w fuel storeName None st) in
  let kept := filter (fun r => row_id r ∉ c_id <$> concat pages) (customers (db st)) in
  key_and_data <$> customers (db st')
  = (key_and_data <$> kept) ++ ((fun c => (c_id c, storeName, c)) <$> concat pages)
  /\ getCustomerCount (db st') storeName
     = Z.of_nat (length (filter (fun r => row_store_name r = storeName) kept))
       + Z.of_nat (length (concat pages))
  /\ getCustomersByStore (db st') storeName
     ≡ₚ (row_data <$> filter (fun r => row_store_name r = storeName) kept) ++ concat pages.
Proof.
  intros Hc Hs Hfuel Hold Hnd. cbn zeta.
  destruct (fresh_run_table w fuel storeName shopify pages st Hc Hs Hfuel Hold Hnd)
    as (rows & Htable & Hk).
  destruct (key_and_data_store storeName rows (concat pages) Hk) as [Hstore Hdata].
  split_and!.
  - by rewrite Htable, fmap_app, Hk.
  - unfold getCustomerCount. rewrite Htable, filter_app, Hstore, length_app.
    rewrite <- (length_fmap key_and_data rows), Hk, length_fmap. lia.
  - unfold getCustomersByStore, select_by_store.
    rewrite order_by_desc_Permutation, Htable, filter_app, Hstore, fmap_app.
    by rewrite Hdata.
Qed.

Lemma sample_page_3_NoDup : NoDup (c_id <$> concat [sample_page 1 3]).
Proof. apply (bool_decide_unpack _). vm_compute. exact I. Qed.

Lemma run_cache_after_witness :
  getCustomerCount
    (db (outcome_state
           (fetchAndSaveCustomers (sample_world upstream_3) 1 "evisu-us" None
              (state (server_of empty_db))))) "evisu-us"
  = 0 + 3.
Proof.
  apply (run_cache_after (sample_world upstream_3) 1 "evisu-us" upstream_3
           [sample_page 1 3] (state (server_of empty_db))
           eq_refl upstream_3_serves (le_n 1) eq_refl sample_page_3_NoDup).
Defined.

(** X28.  Exporting an unchanged store a second time changes nothing that
    the cache tells about the customers: when the ids served are distinct and
    both runs are complete, the second run leaves the rows of the cache with
    the same ids, stores and documents, in the same order, as the first. *)
Theorem second_run_same_cache (w : World) (fuel : nat) (storeName : string)
    (shopify : Api) (pages : list (list CustomerData)) (st : State) :
  createShopifyClient (env w) (remote w) storeName = Ok shopify ->
  serves shopify None pages ->
  (length pages <= fuel)%nat ->
  NoDup (c_id <$> concat pages) ->
  getExportJob (db st) (new_job_id w storeName st) = None ->
  let st1 := outcome_state (fetchAndSaveCustomers w fuel storeName None st) in
  getExportJob (db st1) (new_job_id w storeName st1) = None ->
  let st2 := outcome_state (fetchAndSaveCustomers w fuel storeName None st1) in
  key_and_data <$> customers (db st2) = key_and_data <$> customers (db st1).
Proof.
  intros Hc Hs Hfuel Hnd Hold st1 Hold1 st2.
  destruct (fresh_run_table w fuel storeName shopify pages st Hc Hs Hfuel Hold Hnd)
    as (rows1 & Ht1 & Hk1).
  destruct (fresh_run_table w fuel storeName shopify pages st1 Hc Hs Hfuel Hold1 Hnd)
    as (rows2 & Ht2 & Hk2).
  fold st1 in Ht1. fold st2 in Ht2.
  rewrite Ht2, Ht1, filter_app, list_filter_filter, !fmap_app, Hk1, Hk2.
  assert (filter (fun r => row_id r ∉ c_id <$> concat pages) rows1 = []) as ->.
  { apply filter_none. intros r Hr Hid. apply Hid.
    assert (row_id <$> rows1 = c_id <$> concat pages) as <-.
    { apply (f_equal (fmap (fun k : string * string * CustomerData => k.1.1))) in Hk1.
      by rewrite <- !list_fmap_compose in Hk1. }
    by apply list_elem_of_fmap_2. }
  rewrite app_nil_r. do 2 f_equal. apply list_filter_iff. intros r. tauto.
Qed.

Lemma second_run_same_cache_witness :
  let w := sample_world upstream_3 in
  let st1 := outcome_state (fetchAndSaveCustomers w 1 "evisu-us" None (state (server_of empty_db))) in
  let st2 := outcome_state (fetchAndSaveCustomers w 1 "evisu-us" None st1) in
  key_and_data <$> customers (db st2) = key_and_data <$> customers (db st1).
Proof.
  intros w.
  apply (second_run_same_cache w 1 "evisu-us" upstream_3 [sample_page 1 3]
           (state (server_of empty_db))
           eq_refl upstream_3_serves (le_n 1) sample_page_3_NoDup eq_refl).
  vm_compute. reflexivity.
Defined.

(** ** Writing the CSV file *)

Lemma truthy_outputFile w storeName d : truthy (outputFile w storeName d) = true.
Proof. unfold outputFile. by apply truthy_app_r. Qed.

(** X15.  [exportCustomersToCSV] throws exactly when the store has no
    cached customer, and then changes nothing.  Otherwise it writes one file,
    named after the store and the date, holding the CSV text of the customers
    read back for the store; it changes no other file and no cached row; and
    of the jobs it changes only the [csv_file_path] of the job it was given,
    which becomes the path of the file, and none when it was given no job. *)
Theorem exportCustomersToCSV_effects (w : World) (storeName : string)
    (jobId : option string) (st : State) :
  match exportCustomersToCSV w storeName jobId st with
  | Throw msg =>
      getCustomerCount (db st) storeName = 0
      /\ msg = "No customers found in database for store: " +:+ storeName
  | Ok (file, st') =>
      0 < getCustomerCount (db st) storeName
      /\ file = outputFile w storeName (now w st)
      /\ files st' = <[file := csv_text (getCustomersByStore (db st) storeName)]> (files st)
      /\ customers (db st') = customers (db st)
      /\ (forall other, Some other <> jobId ->
            getExportJob (db st') other = getExportJob (db st) other)
      /\ (forall job, jobId = Some job -> truthy job = true ->
            getExportJob (db st') job
            = (fun j => with_csv_file j file) <$> getExportJob (db st) job)
      /\ (falsy_opt jobId = true -> db st' = db st)
  end.
Proof.
  unfold exportCustomersToCSV.
  assert (getCustomerCount (db st) storeName
          = Z.of_nat (length (getCustomersByStore (db st) storeName))) as ->.
  { unfold getCustomerCount, getCustomersByStore, select_by_store.
    by rewrite length_fmap, (Permutation_length (order_by_desc_Permutation _ _)). }
  destruct (getCustomersByStore (db st) storeName) as [|c cs] eqn:Hcs; [done|].
  cbn zeta. split_and!.
  - cbn [length]. lia.
  - done.
  - by destruct (falsy_opt jobId).
  - by destruct (falsy_opt jobId).
  - intros other Hne. destruct jobId as [job|]; [|done]. cbn [falsy_opt or_else].
    destruct (truthy job); [|done]. cbn [negb db with_db with_file tick].
    apply getExportJob_update_other. congruence.
  - intros job -> Ht. cbn [falsy_opt or_else]. rewrite Ht. cbn [negb db with_db with_file tick].
    rewrite getExportJob_update.
    destruct (getExportJob (db st) job) as [j|] eqn:Hj; [|done].
    cbn [fmap option_fmap option_map]. rewrite (getExportJob_id _ _ _ Hj), String.eqb_refl.
    unfold apply_updates, set_if_truthy, set_if_defined, with_csv_file.
    cbn [u_status u_totalCustomers u_processedCustomers u_completedAt u_error u_csvFilePath
         u_lastCursor].
    by rewrite truthy_outputFile.
  - by intros ->.
Qed.

(** ** The text of the CSV file *)

Lemma length_append (s1 s2 : string) :
  String.length (s1 +:+ s2) = (String.length s1 + String.length s2)%nat.
Proof. induction s1 as [|c s1 IH]; [done|]. rewrite append_cons. cbn. by rewrite IH. Qed.

Lemma length_double_quotes (v : string) :
  (String.length v <= String.length (double_quotes v))%nat.
Proof.
  unfold double_quotes. induction v as [|c v IH]; [done|].
  cbn [replace_all]. destruct (is_dquote c).
  - rewrite length_append. cbn. lia.
  - cbn. lia.
Qed.

(** X16.  [escapeCSVField] returns a value as it is exactly when the value
    holds no comma, double quote, line feed or carriage return; any other
    value comes back longer by at least the two quotes around it. *)
Theorem escapeCSVField_unchanged_iff (value : string) :
  (escapeCSVField value = value
   <-> includes comma value || includes dquote value || includes LF value
       || includes CR value = false)
  /\ (String.length value <= String.length (escapeCSVField value))%nat.
Proof.
  unfold escapeCSVField.
  destruct (includes comma value || includes dquote value || includes LF value
            || includes CR value).
  - assert (String.length (String dquote (double_quotes value) +:+ String dquote EmptyString)
            = S (S (String.length (double_quotes value)))) as Hlen.
    { rewrite append_cons. cbn [String.length]. rewrite length_append. cbn. lia. }
    pose proof (length_double_quotes value) as Hle.
    split; [|lia]. split; [|done]. intros Heq. rewrite Heq in Hlen. lia.
  - split; [done | lia].
Qed.

(** X17.  The line written for a row determines the values of the row: two
    rows, neither of them empty, that are written as the same line hold the
    same values in the same order. *)
Theorem csvRowToLine_injective (row1 row2 : list (string * string)) :
  row1 <> [] -> row2 <> [] ->
  csvRowToLine row1 = csvRowToLine row2 ->
  snd <$> row1 = snd <$> row2.
Proof.
  intros H1 H2 Heq.
  rewrite <- (csvRowToLine_reads_back row1), <- (csvRowToLine_reads_back row2) by done.
  by rewrite Heq.
Qed.

Lemma csvRowToLine_injective_witness :
  snd <$> [("id", "1,2"); ("note", "a")] = snd <$> [("key", "1,2"); ("text", "a")].
Proof. apply csvRowToLine_injective; [discriminate | discriminate | reflexivity]. Defined.

Lemma scan_app (s1 s2 : string) : forall q,
  scan q (s1 +:+ s2) = scan q s1 ≫= fun q' => scan q' s2.
Proof.
  induction s1 as [|c s1 IH]; intros q; [done|].
  rewrite append_cons. cbn [scan].
  destruct (Ascii.eqb c dquote); [apply IH|].
  destruct (Ascii.eqb c LF && negb q); [done | apply IH].
Qed.

Lemma scan_plain (v : string) :
  includes dquote v = false -> includes LF v = false -> scan false v = Some false.
Proof.
  induction v as [|c v IH]; intros Hq Hl; [done|].
  cbn [includes] in Hq, Hl.
  apply orb_false_elim in Hq as [Hq1 Hq]. apply orb_false_elim in Hl as [Hl1 Hl].
  cbn [scan]. rewrite Hq1, Hl1. by apply IH.
Qed.

Lemma scan_double_quotes (v rest : string) :
  scan true (double_quotes v +:+ rest) = scan true rest.
Proof.
  unfold double_quotes. induction v as [|c v IH]; [done|].
  cbn [replace_all]. unfold is_dquote. destruct (Ascii.eqb c dquote) eqn:Hc.
  - unfold two_dquotes. rewrite !append_cons. cbn [scan String.append negb].
    by rewrite Ascii.eqb_refl.
  - rewrite append_cons. cbn [scan]. rewrite Hc, andb_false_r. apply IH.
Qed.

(** An escaped value leaves the reader outside quotes and shows it no line
    break outside quotes. *)
Lemma scan_escapeCSVField (v : string) : scan false (escapeCSVField v) = Some false.
Proof.
  unfold escapeCSVField.
  destruct (includes comma v || includes dquote v || includes LF v || includes CR v)
    eqn:Hspecial.
  - rewrite append_cons. cbn [scan negb]. rewrite Ascii.eqb_refl.
    rewrite scan_double_quotes. cbn [scan negb]. by rewrite Ascii.eqb_refl.
  - apply orb_false_elim in Hspecial as [Hspecial _].
    apply orb_false_elim in Hspecial as [Hspecial Hlf].
    apply orb_false_elim in Hspecial as [_ Hquote].
    by apply scan_plain.
Qed.

Lemma scan_csvRowToLine (row : list (string * string)) :
  scan false (csvRowToLine row) = Some false.
Proof.
  unfold csvRowToLine. induction row as [|kv row IH]; [done|].
  destruct row as [|kv' row].
  - cbn [fmap list_fmap String.concat]. apply scan_escapeCSVField.
  - rewrite !fmap_cons. rewrite fmap_cons in IH. rewrite concat_cons_cons.
    rewrite scan_app, scan_escapeCSVField. cbn [mbind option_bind].
    rewrite scan_app. cbn [scan mbind option_bind]. exact IH.
Qed.

(** A line that leaves the reader outside quotes, followed by a line break,
    is one record. *)
Lemma split_records_line (line rest : string) : forall q cur,
  scan q line = Some false ->
  split_records q cur (line +:+ String LF rest)
  = (cur +:+ line) :: split_records false EmptyString rest.
Proof.
  induction line as [|c line IH]; intros q cur Hscan.
  - cbn in Hscan. injection Hscan as ->. by rewrite append_empty_r.
  - rewrite append_cons. cbn [scan] in Hscan. cbn [split_records].
    destruct (Ascii.eqb c dquote).
    + rewrite IH by done. by rewrite snoc_append.
    + destruct (Ascii.eqb c LF && negb q); [done|].
      rewrite IH by done. by rewrite snoc_append.
Qed.

Lemma split_records_lines (lines : list string) :
  (forall line, line ∈ lines -> scan false line = Some false) ->
  split_records false EmptyString (String.concat "" ((fun line => line +:+ newline) <$> lines))
  = lines.
Proof.
  induction lines as [|line lines IH]; intros Hscan; [done|].
  assert (String.concat "" ((fun line => line +:+ newline) <$> (line :: lines))
          = line +:+ String LF (String.concat "" ((fun line => line +:+ newline) <$> lines)))
    as ->.
  { rewrite fmap_cons. unfold newline. destruct lines as [|line' lines].
    - cbn [fmap list_fmap String.concat].
      by rewrite <- (append_empty_r (line +:+ String LF EmptyString)), append_assoc.
    - rewrite fmap_cons, concat_cons_cons. by rewrite append_assoc. }
  rewrite split_records_line by (apply Hscan, list_elem_of_here).
  f_equal. apply IH. intros l Hl. by apply Hscan, list_elem_of_further.
Qed.

(** X18.  The text written for any list of customers reads back, as a CSV
    file, as the header record followed by one record per customer, in order,
    each holding the values of the customer's row and as many of them as the
    header has names: a comma, a double quote or a line break inside a value
    shifts no column and breaks no record. *)
Theorem csv_text_reads_back (customersData : list CustomerData) :
  rfc4180_records (csv_text customersData)
  = headers :: ((fun c => snd <$> customerToCSVRow c) <$> customersData)
  /\ forall c, length (snd <$> customerToCSVRow c) = length headers.
Proof.
  split; [|reflexivity].
  unfold rfc4180_records, csv_text.
  assert ((fun c => csvRowToLine (customerToCSVRow c) +:+ newline) <$> customersData
          = (fun line => line +:+ newline)
              <$> ((fun c => csvRowToLine (customerToCSVRow c)) <$> customersData)) as ->
    by (by rewrite <- list_fmap_compose).
  unfold newline at 1.
  change (String LF EmptyString +:+ ?s) with (String LF s).
  rewrite split_records_line by (vm_compute; reflexivity).
  rewrite split_records_lines.
  - rewrite fmap_cons. apply (f_equal2 cons); [vm_compute; reflexivity|].
    rewrite <- list_fmap_compose. apply list_fmap_ext. intros i c _. cbn.
    apply customer_line_reads_back.
  - intros line Hline. apply list_elem_of_fmap in Hline as (c & -> & _).
    apply scan_csvRowToLine.
Qed.

(** ** The life of an export on the server *)

Lemma is_exporting_unmark srv storeName :
  is_exporting (unmark_exporting srv storeName) storeName = false.
Proof. unfold is_exporting, unmark_exporting. cbn. by rewrite lookup_delete_eq. Qed.

Lemma is_exporting_mark_other srv storeName other :
  other <> storeName ->
  is_exporting (mark_exporting srv storeName) other = is_exporting srv other.
Proof.
  intros Hne. unfold is_exporting, mark_exporting. cbn. by rewrite lookup_insert_ne.
Qed.

Lemma is_exporting_unmark_other srv storeName other :
  other <> storeName ->
  is_exporting (unmark_exporting srv storeName) other = is_exporting srv other.
Proof.
  intros Hne. unfold is_exporting, unmark_exporting. cbn. by rewrite lookup_delete_ne.
Qed.

(** A task that has come to its end has dropped its store from
    [activeExports] and touched the mark of no other store. *)
Lemma run_task_unmarks w fuel t srv :
  (forall st', call_fetchAndSaveCustomers w fuel (t_storeName t) (t_args t) (state srv)
               <> OutOfFuel st') ->
  is_exporting (run_task w fuel t srv) (t_storeName t) = false
  /\ forall other, other <> t_storeName t ->
       is_exporting (run_task w fuel t srv) other = is_exporting srv other.
Proof.
  intros Hend. unfold run_task.
  destruct (call_fetchAndSaveCustomers w fuel (t_storeName t) (t_args t) (state srv))
    as [total job st|msg st|st]; [| |by destruct (Hend st)];
    (split; [apply is_exporting_unmark | intros other Hne; by rewrite is_exporting_unmark_other]).
Qed.

(** X19.  The mark of a store in [activeExports] over the life of an
    export: a start that is accepted sets it; for as long as it is set,
    whatever the run has made of the database by then, the status route
    reports the store as exporting, with the count and the latest job that
    the database then holds, and a resume is refused as a start is; a task
    that comes to its end, whether the run returned or threw, clears it and
    no other; and the next start is accepted again. *)
Theorem export_lock_lifecycle (w : World) (fuel : nat) (srv : Server)
    (storeName : string) (body : Body) :
  in_storeConfigs storeName = true ->
  is_exporting srv storeName = false ->
  (forall st', fetchAndSaveCustomers w fuel storeName None (state srv) <> OutOfFuel st') ->
  exists r srv1 t,
    post_export srv storeName body = (r, srv1, Some t)
    /\ (forall busy,
          activeExports busy = activeExports srv1 ->
          get_status busy storeName
          = StatusOf storeName true (getCustomerCount (db (state busy)) storeName)
              (getLatestExportJob (db (state busy)) (Some storeName))
          /\ (forall body',
                post_export busy storeName body' = (AlreadyInProgress storeName, busy, None))
          /\ (forall body',
                post_resume busy storeName body' = (AlreadyInProgress storeName, busy, None)))
    /\ is_exporting (run_task w fuel t srv1) storeName = false
    /\ (forall other, other <> storeName ->
          is_exporting (run_task w fuel t srv1) other = is_exporting srv other)
    /\ (forall body',
          exists r' srv3 t',
            post_export (run_task w fuel t srv1) storeName body' = (r', srv3, Some t')
            /\ http_status r' = 200).
Proof.
  intros Hin Hex Hend. unfold post_export at 1. rewrite Hin, Hex. cbn [negb].
  eexists _, _, _. split; [reflexivity|].
  set (t := {| t_storeName := storeName; t_args := None; t_exportCsv := exportCsv body |}).
  destruct (run_task_unmarks w fuel t (mark_exporting srv storeName) Hend) as [Hoff Hother].
  split_and!.
  - intros busy Hbusy.
    assert (is_exporting busy storeName = true) as Hon.
    { unfold is_exporting. rewrite Hbusy. apply (is_exporting_mark srv storeName). }
    split_and!.
    + unfold get_status. by rewrite Hin, Hon.
    + intros body'. unfold post_export. by rewrite Hin, Hon.
    + intros body'. unfold post_resume. by rewrite Hin, Hon.
  - done.
  - intros other Hne. rewrite (Hother other Hne). by apply is_exporting_mark_other.
  - intros body'. unfold post_export. rewrite Hin. cbn [negb].
    change (t_storeName t) with storeName in Hoff. rewrite Hoff.
    by eexists _, _, _.
Qed.

Lemma export_lock_lifecycle_witness :
  let w := sample_world upstream_3 in
  let srv := server_of empty_db in
  exists r srv1 t,
    post_export srv "evisu-us" plain_body = (r, srv1, Some t)
    /\ post_resume srv1 "evisu-us" plain_body = (AlreadyInProgress "evisu-us", srv1, None)
    /\ is_exporting (run_task w 2 t srv1) "evisu-us" = false.
Proof.
  intros w srv.
  destruct (export_lock_lifecycle w 2 srv "evisu-us" plain_body eq_refl eq_refl)
    as (r & srv1 & t & Hstart & Hbusy & Hoff & _).
  { intros st'. vm_compute. discriminate. }
  exists r, srv1, t. split_and!; [exact Hstart | | exact Hoff].
  apply (Hbusy srv1 eq_refl).
Defined.

(** X20.  A resume that names a job by id takes that job whatever store it
    is filed under: for a known store with no export running, a job on record
    that failed or is in progress and has a cursor is resumed under the store
    of the request, and the task is given the id of the job and its cursor. *)
Theorem resume_by_id_ignores_store (srv : Server) (storeName : string) (body : Body)
    (job : string) (j : ExportJob) :
  in_storeConfigs storeName = true ->
  is_exporting srv storeName = false ->
  jobId body = Some job ->
  truthy job = true ->
  getExportJob (db (state srv)) job = Some j ->
  resumable j = true ->
  falsy_opt (j_lastCursor j) = false ->
  post_resume srv storeName body
  = (ExportResumed storeName job (j_processedCustomers j)
       (if exportCsv body then Some ("/api/download-csv/job/" +:+ job) else None),
     mark_exporting srv storeName,
     Some {| t_storeName := storeName;
             t_args := Some (job, j_lastCursor j);
             t_exportCsv := exportCsv body |}).
Proof.
  intros Hin Hex Hid Ht Hj Hres Hcur. unfold post_resume, jobToResume.
  rewrite Hin, Hex, Hid. cbn [negb falsy_opt or_else]. rewrite Ht. cbn [negb].
  rewrite Hj, Hres, Hcur. cbn [negb]. by rewrite (getExportJob_id _ _ _ Hj).
Qed.

Lemma resume_by_id_ignores_store_witness :
  let srv := server_of {| customers := []; export_jobs := [failed_job] |} in
  let body := {| exportCsv := false; jobId := Some "export_evisu-us_1763017680000" |} in
  j_storeName failed_job = "evisu-us"
  /\ post_resume srv "evisu-hk" body
     = (ExportResumed "evisu-hk" "export_evisu-us_1763017680000" 500 None,
        mark_exporting srv "evisu-hk",
        Some {| t_storeName := "evisu-hk";
                t_args := Some ("export_evisu-us_1763017680000", Some "cursor-500");
                t_exportCsv := false |}).
Proof.
  intros srv body. split; [reflexivity|].
  apply (resume_by_id_ignores_store srv "evisu-hk" body "export_evisu-us_1763017680000"
           failed_job); reflexivity.
Defined.

(** X21.  A start for a known store whose credentials are missing is
    answered as started, with status 200; its task then ends at once: no job
    is recorded, nothing is fetched or written, and the store is free again. *)
Theorem start_without_credentials (w : World) (fuel : nat) (srv : Server)
    (storeName : string) (body : Body) (msg : string) :
  in_storeConfigs storeName = true ->
  is_exporting srv storeName = false ->
  createShopifyClient (env w) (remote w) storeName = Throw msg ->
  exists r srv1 t,
    post_export srv storeName body = (r, srv1, Some t)
    /\ http_status r = 200
    /\ state (run_task w fuel t srv1) = state srv
    /\ is_exporting (run_task w fuel t srv1) storeName = false.
Proof.
  intros Hin Hex Hc. unfold post_export. rewrite Hin, Hex. cbn [negb].
  eexists _, _, _. split; [reflexivity|]. split; [reflexivity|].
  unfold run_task, call_fetchAndSaveCustomers, fetchAndSaveCustomers.
  cbn [t_storeName t_args state mark_exporting]. rewrite Hc.
  split; [reflexivity | apply is_exporting_unmark].
Qed.

Lemma start_without_credentials_witness :
  exists r srv1 t,
    post_export (server_of empty_db) "evisu-jp" plain_body = (r, srv1, Some t)
    /\ http_status r = 200
    /\ state (run_task (sample_world upstream_3) 10 t srv1) = state (server_of empty_db)
    /\ is_exporting (run_task (sample_world upstream_3) 10 t srv1) "evisu-jp" = false.
Proof.
  eapply (start_without_credentials (sample_world upstream_3) 10 (server_of empty_db)
            "evisu-jp" plain_body);
    reflexivity.
Defined.

Lemma in_storeConfigs_truthy storeName :
  in_storeConfigs storeName = true -> truthy storeName = true.
Proof. by destruct storeName. Qed.

Lemma elem_of_getExportJob d j : j ∈ export_jobs d -> is_Some (getExportJob d (j_id j)).
Proof.
  unfold getExportJob. induction (export_jobs d) as [|x l IH]; intros Hj.
  - by apply elem_of_nil in Hj.
  - cbn. destruct (String.eqb (j_id x) (j_id j)) eqn:Heq; [by eexists|].
    apply elem_of_cons in Hj as [-> | Hj]; [by rewrite String.eqb_refl in Heq | by apply IH].
Qed.

Lemma getLatestExportJob_elem d storeName j :
  truthy storeName = true ->
  getLatestExportJob d (Some storeName) = Some j -> j ∈ export_jobs d.
Proof.
  intros Hs. unfold getLatestExportJob, getExportJobsByStore. cbn [falsy_opt or_else].
  rewrite Hs. cbn [negb]. intros Hhead.
  set (mine := filter (fun j => j_storeName j = storeName) (export_jobs d)) in *.
  assert (j ∈ order_by_desc j_startedAt mine) as Hj.
  { destruct (order_by_desc j_startedAt mine) as [|x l]; [done|].
    cbn in Hhead. injection Hhead as ->. apply list_elem_of_here. }
  rewrite order_by_desc_Permutation in Hj. subst mine.
  by apply list_elem_of_filter in Hj as [_ Hj].
Qed.

(** X22.  The job id that the response to a start carries is read before
    the export creates its job: it is the id of the job of the store that
    started last among those already on record, or the word pending, and so
    never the id of the job that the export it announces is about to
    create. *)
Theorem start_response_names_old_job (w : World) (srv srv1 : Server) (storeName : string)
    (body : Body) (r : Response) (t : Task) :
  post_export srv storeName body = (r, srv1, Some t) ->
  getExportJob (db (state srv)) (new_job_id w storeName (state srv)) = None ->
  exists job,
    r = ExportStarted storeName job
          (if exportCsv body then Some ("/api/download-csv/" +:+ storeName +:+ "/latest")
           else None)
    /\ job <> new_job_id w storeName (state srv)
    /\ (job = "pending" \/ is_Some (getExportJob (db (state srv)) job)).
Proof.
  unfold post_export. intros Hstart Hnew.
  destruct (in_storeConfigs storeName) eqn:Hin; cbn [negb] in Hstart; [|done].
  destruct (is_exporting srv storeName); [done|].
  injection Hstart as <- _ _. eexists. split; [reflexivity|].
  pose proof (in_storeConfigs_truthy _ Hin) as Hs.
  assert ("pending" <> new_job_id w storeName (state srv)) as Hpending by done.
  destruct (getLatestExportJob (db (state srv)) (Some storeName)) as [j|] eqn:Hlatest;
    cbn [fmap option_fmap option_map or_else]; [|split; [done | by left]].
  destruct (truthy (j_id j)); [|split; [done | by left]].
  apply (getLatestExportJob_elem _ _ _ Hs), elem_of_getExportJob in Hlatest.
  split; [|by right]. intros Heq. rewrite Heq, Hnew in Hlatest. by destruct Hlatest.
Qed.

Lemma start_response_names_old_job_witness :
  let srv := server_of {| customers := []; export_jobs := [failed_job] |} in
  exists job,
    fst (fst (post_export srv "evisu-us" plain_body)) = ExportStarted "evisu-us" job None
    /\ job <> new_job_id (sample_world upstream_3) "evisu-us" (state srv)
    /\ (job = "pending" \/ is_Some (getExportJob (db (state srv)) job)).
Proof.
  intros srv.
  apply (start_response_names_old_job (sample_world upstream_3) srv
           (mark_exporting srv "evisu-us") "evisu-us" plain_body _
           {| t_storeName := "evisu-us"; t_args := None; t_exportCsv := false |});
    reflexivity.
Defined.

(** ** From a start to the download *)

Lemma cached_under_read_back d storeName x :
  cached_under d storeName x -> getCustomersByStore d storeName <> [].
Proof.
  intros (r & Hr & _ & Hs) Hnil.
  assert (r ∈ select_by_store (customers d) storeName) as Hin.
  { unfold select_by_store. rewrite order_by_desc_Permutation.
    by apply list_elem_of_filter. }
  unfold getCustomersByStore in Hnil. apply fmap_nil_inv in Hnil.
  rewrite Hnil in Hin. by apply elem_of_nil in Hin.
Qed.

(** X23.  From a start to the download: when an export started with
    [exportCsv] runs to its end against a store that serves finitely many
    pages and at least one customer, the job it has created is completed with
    the number of customers served as its total, and the download route for
    that job sends the CSV text of the customers then cached for the store. *)
Theorem started_export_is_downloadable (w : World) (fuel : nat) (srv : Server)
    (storeName : string) (shopify : Api) (pages : list (list CustomerData)) :
  createShopifyClient (env w) (remote w) storeName = Ok shopify ->
  serves shopify None pages ->
  (length pages <= fuel)%nat ->
  concat pages <> [] ->
  getExportJob (db (state srv)) (new_job_id w storeName (state srv)) = None ->
  let srv' :=
    run_task w fuel {| t_storeName := storeName; t_args := None; t_exportCsv := true |} srv in
  let job := new_job_id w storeName (state srv) in
  (exists file,
     download_by_job srv' job
     = FileSent file (csv_text (getCustomersByStore (db (state srv')) storeName))
     /\ j_csvFilePath <$> getExportJob (db (state srv')) job = Some (Some file))
  /\ j_status <$> getExportJob (db (state srv')) job = Some completed
  /\ j_totalCustomers <$> getExportJob (db (state srv')) job
     = Some (Z.of_nat (length (concat pages)))
  /\ is_exporting srv' storeName = false.
Proof.
  intros Hc Hs Hfuel Hsome Hnew. cbn zeta.
  destruct (fresh_run_returns w fuel storeName shopify pages (state srv)
              Hc Hs Hfuel Hnew) as (st1 & Hrun & _ & Hin & _ & Hjob).
  unfold run_task, call_fetchAndSaveCustomers. cbn [t_storeName t_args t_exportCsv].
  rewrite Hrun.
  assert (getCustomersByStore (db st1) storeName <> []) as Hcached.
  { destruct (concat pages) as [|c cs] eqn:Hcs; [done|].
    apply (cached_under_read_back _ _ (c_id c)), Hin, list_elem_of_here. }
  assert (truthy (new_job_id w storeName (state srv)) = true) as Hid by done.
  unfold exportCustomersToCSV.
  destruct (getCustomersByStore (db st1) storeName) as [|c cs] eqn:Hcs; [done|].
  cbn zeta. cbn [falsy_opt or_else]. rewrite Hid. cbn [negb].
  set (file := outputFile w storeName (now w st1)).
  set (job := new_job_id w storeName (state srv)) in *.
  cbn [state unmark_exporting db with_db with_file tick files].
  assert (getCustomersByStore
            (updateExportJob (db st1) job
               {| u_status := None; u_totalCustomers := None; u_processedCustomers := None;
                  u_completedAt := None; u_error := None; u_csvFilePath := Some file;
                  u_lastCursor := None |}) storeName = c :: cs) as Hsame by exact Hcs.
  rewrite Hsame.
  assert (getExportJob
            (updateExportJob (db st1) job
               {| u_status := None; u_totalCustomers := None; u_processedCustomers := None;
                  u_completedAt := None; u_error := None; u_csvFilePath := Some file;
                  u_lastCursor := None |}) job
          = Some (apply_updates
                    {| u_status := None; u_totalCustomers := None;
                       u_processedCustomers := None; u_completedAt := None;
                       u_error := None; u_csvFilePath := Some file; u_lastCursor := None |}
                    {| j_id := job;
                       j_storeName := storeName;
                       j_status := completed;
                       j_totalCustomers := Z.of_nat (length (concat pages));
                       j_processedCustomers := Z.of_nat (length (concat pages));
                       j_startedAt := toISOString (now w (tick (state srv)));
                       j_completedAt := Some (last_reading w st1);
                       j_error := None;
                       j_csvFilePath := None;
                       j_lastCursor := None |})) as Hjob'
    by (by apply getExportJob_update_same).
  split_and!.
  - exists file. unfold download_by_job.
    cbn [state unmark_exporting db with_db with_file tick files].
    rewrite Hjob'. unfold apply_updates, set_if_truthy.
    cbn [j_csvFilePath u_csvFilePath fmap option_fmap option_map].
    subst file. rewrite truthy_outputFile. cbn [falsy_opt or_else].
    rewrite truthy_outputFile. cbn [negb]. by rewrite lookup_insert_eq.
  - by rewrite Hjob'.
  - by rewrite Hjob'.
  - apply is_exporting_unmark.
Qed.

Lemma started_export_is_downloadable_witness :
  let srv' :=
    run_task (sample_world upstream_3) 1
      {| t_storeName := "evisu-us"; t_args := None; t_exportCsv := true |}
      (server_of empty_db) in
  j_totalCustomers <$> getExportJob (db (state srv')) "export_evisu-us_1763017685000"
  = Some 3.
Proof.
  intros srv'.
  apply (started_export_is_downloadable (sample_world upstream_3) 1 (server_of empty_db)
           "evisu-us" upstream_3 [sample_page 1 3]
           eq_refl upstream_3_serves (le_n 1) ltac:(discriminate) eq_refl).
Defined.

(** ** Store names *)

Lemma mem_in_storeConfigs name : mem name inheritedNames = true -> in_storeConfigs name = true.
Proof. intros Hm. unfold in_storeConfigs. rewrite Hm. by destruct (assoc name storeConfigTable). Qed.

(** X24.  A client is handed out only for a store name that the routes
    accept, and every refusal carries the message that names the store; the
    converse fails, since an accepted name whose domain or token is missing
    or empty in the environment is refused. *)
Theorem createShopifyClient_valid (env : Env) (remote : Shopify) (storeName : string) :
  match createShopifyClient env remote storeName with
  | Ok _ => in_storeConfigs storeName = true
  | Throw msg =>
      msg = "Store configuration not found or incomplete for " +:+ storeName
            +:+ ". Check environment variables."
      /\ (in_storeConfigs storeName = true ->
          exists domainVar tokenVar,
            assoc storeName storeConfigTable = Some (domainVar, tokenVar)
            /\ (falsy_opt (env domainVar) = true \/ falsy_opt (env tokenVar) = true))
  end.
Proof.
  unfold createShopifyClient.
  destruct (mem storeName inheritedNames) eqn:Hm; [by apply mem_in_storeConfigs|].
  unfold in_storeConfigs. rewrite Hm.
  destruct (assoc storeName storeConfigTable) as [[domainVar tokenVar]|]; [|done].
  destruct (falsy_opt (env domainVar) || falsy_opt (env tokenVar)) eqn:Hf; [|done].
  split; [done|]. intros _. exists domainVar, tokenVar. split; [done|].
  by apply orb_true_iff.
Qed.

(** X25.  The routes accept the names that every JavaScript object
    inherits, such as [constructor] or [toString], as store names.  A start
    for such a name is answered as started; its run creates a job under that
    name and fails it on the first request, because what it takes for the
    client has no [request] method; nothing is cached, and the name is free
    again. *)
Theorem start_for_inherited_name (w : World) (fuel : nat) (srv : Server) (name : string)
    (body : Body) :
  mem name inheritedNames = true ->
  is_exporting srv name = false ->
  getExportJob (db (state srv)) (new_job_id w name (state srv)) = None ->
  exists r srv1 t,
    post_export srv name body = (r, srv1, Some t)
    /\ http_status r = 200
    /\ let srv' := run_task w (S fuel) t srv1 in
       getExportJob (db (state srv')) (new_job_id w name (state srv))
       = Some {| j_id := new_job_id w name (state srv);
                 j_storeName := name;
                 j_status := failed;
                 j_totalCustomers := 0;
                 j_processedCustomers := 0;
                 j_startedAt := toISOString (now w (tick (state srv)));
                 j_completedAt := Some (last_reading w (state srv'));
                 j_error := Some "shopify.request is not a function";
                 j_csvFilePath := None;
                 j_lastCursor := None |}
       /\ customers (db (state srv')) = customers (db (state srv))
       /\ files (state srv') = files (state srv)
       /\ is_exporting srv' name = false.
Proof.
  intros Hm Hex Hnew. unfold post_export.
  rewrite (mem_in_storeConfigs _ Hm), Hex. cbn [negb].
  eexists _, _, _. split; [reflexivity|]. split; [reflexivity|]. cbn zeta.
  assert (createShopifyClient (env w) (remote w) name = Ok inherited_client) as Hc
    by (unfold createShopifyClient; by rewrite Hm).
  unfold run_task, call_fetchAndSaveCustomers.
  cbn [t_storeName t_args t_exportCsv state mark_exporting].
  rewrite (fresh_run_unfold _ _ _ _ _ Hc).
  pose proof (newExportJob_cases w name (state srv)) as Hn. rewrite Hnew in Hn.
  destruct Hn as [-> Hj]. unfold run_job. cbn [fetch_loop inherited_client].
  cbn [state unmark_exporting db with_db tick sent files].
  split_and!.
  - erewrite getExportJob_update_same; [|by apply getExportJob_update_same].
    unfold last_reading. cbn [ticks with_db tick sent Nat.pred state]. unfold now.
    cbn [ticks with_db tick sent]. job_fields. cbn [new_job j_id j_storeName j_status
      j_totalCustomers j_processedCustomers j_startedAt j_completedAt j_error j_csvFilePath
      j_lastCursor]. by rewrite truthy_toISOString.
  - done.
  - done.
  - apply is_exporting_unmark.
Qed.

Lemma start_for_inherited_name_witness :
  exists r srv1 t,
    post_export (server_of empty_db) "toString" plain_body = (r, srv1, Some t)
    /\ http_status r = 200
    /\ j_error <$> getExportJob (db (state (run_task (sample_world upstream_3) 1 t srv1)))
                     "export_toString_1763017685000"
       = Some (Some "shopify.request is not a function").
Proof.
  destruct (start_for_inherited_name (sample_world upstream_3) 0 (server_of empty_db)
              "toString" plain_body eq_refl eq_refl eq_refl)
    as (r & srv1 & t & Hstart & Hstatus & Hjob & _).
  exists r, srv1, t. split_and!; [exact Hstart | exact Hstatus |].
  cbn zeta in Hjob.
  change (new_job_id (sample_world upstream_3) "toString" (state (server_of empty_db)))
    with "export_toString_1763017685000" in Hjob.
  by rewrite Hjob.
Defined.

(** ** The command line *)

Lemma fresh_run_job_id w fuel storeName st total job st' :
  fetchAndSaveCustomers w fuel storeName None st = Returned total job st' ->
  job = new_job_id w storeName st.
Proof.
  intros Hrun.
  destruct (fetchAndSaveCustomers_cases w fuel storeName None st)
    as [[msg H] | [[msg H] | [(shopify & job' & Hid & H) | (shopify & Hnone & H)]]];
    rewrite H in Hrun; try done.
  unfold run_job in Hrun.
  destruct (fetch_loop _ _ _ _ _ _ _ _) as [t stl|msg stl|stl]; [|done..].
  by injection Hrun as _ <- _.
Qed.

(** X26.  The command [both] does what [fetch] followed by [csv] does,
    except for one column: when [fetch] and then [csv] succeed for a store,
    [both] succeeds from the same state, writes the same files and leaves the
    same cache and the same jobs, but for the job of the run, whose
    [csv_file_path] it sets to the file written, which [csv] alone records
    nowhere. *)
Theorem cli_both_is_fetch_then_csv (w : World) (fuel : nat) (storeName : string)
    (st st1 st2 : State) :
  cli_main w fuel (Some "fetch") (Some storeName) st = Exit Success st1 ->
  cli_main w fuel (Some "csv") (Some storeName) st1 = Exit Success st2 ->
  exists st_both,
    cli_main w fuel (Some "both") (Some storeName) st = Exit Success st_both
    /\ files st_both = files st2
    /\ files st2 !! outputFile w storeName (now w st1)
       = Some (csv_text (getCustomersByStore (db st1) storeName))
    /\ customers (db st_both) = customers (db st2)
    /\ customers (db st2) = customers (db st1)
    /\ export_jobs (db st2) = export_jobs (db st1)
    /\ (forall other, other <> new_job_id w storeName st ->
          getExportJob (db st_both) other = getExportJob (db st2) other)
    /\ getExportJob (db st_both) (new_job_id w storeName st)
       = (fun j => with_csv_file j (outputFile w storeName (now w st1)))
           <$> getExportJob (db st2) (new_job_id w storeName st).
Proof.
  unfold cli_main. cbn [falsy_opt or_else String.eqb Ascii.eqb Bool.eqb negb].
  destruct (truthy storeName); cbn [negb]; [|done].
  destruct (in_storeConfigs storeName); cbn [negb]; [|done].
  destruct (fetchAndSaveCustomers w fuel storeName None st) as [total job st1'|msg st1'|st1']
    eqn:Hrun; cbn [exit_of]; [|done..].
  intros [= ->]. apply fresh_run_job_id in Hrun as ->.
  unfold exportCustomersToCSV.
  destruct (getCustomersByStore (db st1) storeName) as [|c cs] eqn:Hcs; [done|].
  cbn zeta. cbn [falsy_opt or_else]. intros [= <-].
  assert (truthy (new_job_id w storeName st) = true) as -> by done. cbn [negb].
  eexists. split; [reflexivity|].
  cbn [files db with_db with_file tick]. split_and!; try done.
  - by rewrite lookup_insert_eq.
  - intros other Hne. by apply getExportJob_update_other.
  - rewrite getExportJob_update.
    destruct (getExportJob (db st1) (new_job_id w storeName st)) as [j|] eqn:Hj; [|done].
    cbn [fmap option_fmap option_map].
    rewrite (getExportJob_id _ _ _ Hj), String.eqb_refl.
    unfold apply_updates, set_if_truthy, set_if_defined, with_csv_file.
    cbn [u_status u_totalCustomers u_processedCustomers u_completedAt u_error u_csvFilePath
         u_lastCursor].
    by rewrite truthy_outputFile.
Qed.

(** X27.  The command [resume] either exits with failure and changes
    nothing, or runs [fetchAndSaveCustomers] for a job that is on record for
    the store asked for, has failed and holds a cursor: unlike the route, it
    takes no job of another store and no job still in progress. *)
Theorem cli_resume_own_failed_job (w : World) (fuel : nat) (storeName : option string)
    (st : State) :
  cli_main w fuel (Some "resume") storeName st = Exit Failure st
  \/ exists s j,
       storeName = Some s
       /\ j ∈ export_jobs (db st)
       /\ j_storeName j = s
       /\ j_status j = failed
       /\ falsy_opt (j_lastCursor j) = false
       /\ cli_main w fuel (Some "resume") storeName st
          = exit_of (fetchAndSaveCustomers w fuel s (Some (j_id j)) st).
Proof.
  unfold cli_main. cbn [falsy_opt or_else String.eqb Ascii.eqb Bool.eqb negb].
  destruct storeName as [s|]; cbn [falsy_opt or_else]; [|by left].
  destruct (truthy s); cbn [negb]; [|by left].
  destruct (in_storeConfigs s); cbn [negb]; [|by left].
  destruct (List.find _ (getExportJobsByStore (db st) s 10)) as [j|] eqn:Hfind; [|by left].
  destruct (falsy_opt (j_lastCursor j)) eqn:Hcur; [by left|].
  right. exists s, j.
  apply find_some in Hfind as [Hin Hfailed]. apply bool_decide_eq_true in Hfailed.
  apply list_elem_of_In in Hin.
  assert (j ∈ export_jobs (db st) /\ j_storeName j = s) as [Hj Hs].
  { unfold getExportJobsByStore in Hin.
    destruct (sql_limit_split 10 (order_by_desc j_startedAt
                (filter (fun j => j_storeName j = s) (export_jobs (db st)))))
      as (rest & Hsplit & _).
    assert (j ∈ order_by_desc j_startedAt
                  (filter (fun j => j_storeName j = s) (export_jobs (db st)))) as Hall
      by (rewrite Hsplit; apply elem_of_app; by left).
    rewrite order_by_desc_Permutation in Hall. apply list_elem_of_filter in Hall. tauto. }
  split_and!; done.
Qed.

Lemma cli_both_is_fetch_then_csv_witness :
  let w := sample_world upstream_3 in
  let st := state (server_of empty_db) in
  let st1 := outcome_state (fetchAndSaveCustomers w 1 "evisu-us" None st) in
  exists st_both,
    cli_main w 1 (Some "both") (Some "evisu-us") st = Exit Success st_both
    /\ j_csvFilePath <$> getExportJob (db st_both) "export_evisu-us_1763017685000"
       = Some (Some "/app/exports/customers-evisu-us-2025-11-13.csv").
Proof.
  intros w st st1.
  destruct (cli_both_is_fetch_then_csv w 1 "evisu-us" st st1
              (with_file (tick st1) (outputFile w "evisu-us" (now w st1))
                 (csv_text (getCustomersByStore (db st1) "evisu-us"))))
    as (st_both & Hboth & _ & _ & _ & _ & _ & _ & Hjob).
  - vm_compute. reflexivity.
  - vm_compute. reflexivity.
  - exists st_both. split; [exact Hboth|].
    change (new_job_id w "evisu-us" st) with "export_evisu-us_1763017685000" in Hjob.
    rewrite Hjob. vm_compute. reflexivity.
Defined.
